(** * USDTBalanceSeedPhraseRecovery: a shallow embedding of src/diagnose.js

    The development follows the class [USDTBalanceSeedPhraseRecovery]:
    - JavaScript values the class manipulates (BigInt as [Z], arrays as
      lists, [undefined] array reads as [None], exceptions as [Throw]);
    - the index-to-candidate encoder [generateCombination];
    - the file system, the clock and the balance oracle as an explicit
      world threaded through an error-and-state monad;
    - the enumeration loop of [findValidSeedPhrases] and the checkpoint
      and ledger operations around it. *)

From Stdlib Require Import ZArith List String Ascii Bool Lia Arith.
From Stdlib Require Import Decimal DecimalString DecimalZ DecimalPos.
From Stdlib Require Import Floats.SpecFloat.
Import ListNotations.

Local Open Scope string_scope.
Local Open Scope list_scope.
Local Open Scope Z_scope.

(* ------------------------------------------------------------------ *)
(** ** Exceptions and results *)

Inductive error : Type :=
| RangeError (msg : string)
| SyntaxError (msg : string)
| TypeError (msg : string)
| IOError (msg : string)
| Error (msg : string).

Inductive result (A : Type) : Type :=
| Ok (a : A)
| Throw (e : error).

Arguments Ok {A} a.
Arguments Throw {A} e.

Definition rbind {A B : Type} (r : result A) (k : A -> result B) : result B :=
  match r with
  | Ok a => k a
  | Throw e => Throw e
  end.

Declare Scope result_scope.
Delimit Scope result_scope with result.
Notation "'let?' x ':=' c 'in' k" := (rbind c (fun x => k))
  (at level 10, x name, c at level 100, k at level 200) : result_scope.

(* ------------------------------------------------------------------ *)
(** ** BigInt arithmetic

    A BigInt is an unbounded integer, so it is a [Z].  Division truncates
    towards zero and the remainder takes the sign of the dividend, which
    are [Z.quot] and [Z.rem]; a zero divisor and a negative exponent raise
    a RangeError. *)

Module BigInt.

Definition div (a b : Z) : result Z :=
  if b =? 0 then Throw (RangeError "Division by zero") else Ok (Z.quot a b).

Definition rem (a b : Z) : result Z :=
  if b =? 0 then Throw (RangeError "Division by zero") else Ok (Z.rem a b).

Definition pow (a b : Z) : result Z :=
  if b <? 0 then Throw (RangeError "Exponent must be non-negative")
  else Ok (a ^ b).

End BigInt.

(* ------------------------------------------------------------------ *)
(** ** Arrays *)

(** An element read from an array: a string, or [None] for [undefined]. *)
Definition jsword : Type := option string.

(** [arr[i]] for an integer [i]: [undefined] outside the array. *)
Definition array_get (arr : list string) (i : Z) : jsword :=
  if i <? 0 then None else nth_error arr (Z.to_nat i).

(** [arr.splice(start, 0, item)]: a negative [start] counts from the end
    and is clamped at 0, a [start] past the end is clamped to the length;
    the item is inserted before the element at that place. *)
Definition splice_insert {A : Type} (start : Z) (item : A) (arr : list A) : list A :=
  let len := Z.of_nat (List.length arr) in
  let k := if start <? 0 then Z.max (len + start) 0 else Z.min start len in
  firstn (Z.to_nat k) arr ++ item :: skipn (Z.to_nat k) arr.

(** [arr.includes(word)] on an array of strings. *)
Definition includes (arr : list string) (word : string) : bool :=
  existsb (String.eqb word) arr.

(** [arr.includes(w)] when [w] may be [undefined]: an array of strings
    never holds [undefined]. *)
Definition includes_js (arr : list string) (w : jsword) : bool :=
  match w with
  | Some s => includes arr s
  | None => false
  end.

(** [arr.join(sep)]; [undefined] elements print as the empty string. *)
Definition join (sep : string) (arr : list string) : string := String.concat sep arr.

Definition join_js (sep : string) (arr : list jsword) : string :=
  join sep (map (fun w => match w with Some s => s | None => "" end) arr).

(* ------------------------------------------------------------------ *)
(** ** The recovery object *)

Record Recovery : Type := mkRecovery {
  knownWords : list string;
  missingPositions : list Z;
  totalAttempts : Z;
  validAttempts : Z;
  wordList : list string;
  usdtContract : bool;              (* false: still null *)
  startTime : option Z;             (* None: null *)
  combinationCount : option Z;      (* None: null *)
  foundValidPhrases : list string;
  lastCheckpointTime : Z;
  attemptedCombinations : list Z    (* a Set, in insertion order *)
}.

(** The two intervals the constructor fixes and nothing changes. *)
Definition CHECKPOINT_INTERVAL : Z := 5 * 60 * 1000.
Definition LOGGING_INTERVAL : Z := 100000.

(** Field updates. *)
Definition set_totalAttempts (this : Recovery) (v : Z) : Recovery :=
  mkRecovery (knownWords this) (missingPositions this) v (validAttempts this)
    (wordList this) (usdtContract this) (startTime this) (combinationCount this)
    (foundValidPhrases this) (lastCheckpointTime this) (attemptedCombinations this).

Definition set_wordList (this : Recovery) (v : list string) : Recovery :=
  mkRecovery (knownWords this) (missingPositions this) (totalAttempts this)
    (validAttempts this) v (usdtContract this) (startTime this)
    (combinationCount this) (foundValidPhrases this) (lastCheckpointTime this)
    (attemptedCombinations this).

Definition set_usdtContract (this : Recovery) (v : bool) : Recovery :=
  mkRecovery (knownWords this) (missingPositions this) (totalAttempts this)
    (validAttempts this) (wordList this) v (startTime this)
    (combinationCount this) (foundValidPhrases this) (lastCheckpointTime this)
    (attemptedCombinations this).

Definition set_startTime (this : Recovery) (v : option Z) : Recovery :=
  mkRecovery (knownWords this) (missingPositions this) (totalAttempts this)
    (validAttempts this) (wordList this) (usdtContract this) v
    (combinationCount this) (foundValidPhrases this) (lastCheckpointTime this)
    (attemptedCombinations this).

Definition set_combinationCount (this : Recovery) (v : option Z) : Recovery :=
  mkRecovery (knownWords this) (missingPositions this) (totalAttempts this)
    (validAttempts this) (wordList this) (usdtContract this) (startTime this)
    v (foundValidPhrases this) (lastCheckpointTime this)
    (attemptedCombinations this).

Definition set_lastCheckpointTime (this : Recovery) (v : Z) : Recovery :=
  mkRecovery (knownWords this) (missingPositions this) (totalAttempts this)
    (validAttempts this) (wordList this) (usdtContract this) (startTime this)
    (combinationCount this) (foundValidPhrases this) v
    (attemptedCombinations this).

Definition set_attemptedCombinations (this : Recovery) (v : list Z) : Recovery :=
  mkRecovery (knownWords this) (missingPositions this) (totalAttempts this)
    (validAttempts this) (wordList this) (usdtContract this) (startTime this)
    (combinationCount this) (foundValidPhrases this) (lastCheckpointTime this) v.

(** [foundValidPhrases.push(phrase); validAttempts++]. *)
Definition record_valid (this : Recovery) (phrase : string) : Recovery :=
  mkRecovery (knownWords this) (missingPositions this) (totalAttempts this)
    (validAttempts this + 1) (wordList this) (usdtContract this)
    (startTime this) (combinationCount this)
    (foundValidPhrases this ++ [phrase]) (lastCheckpointTime this)
    (attemptedCombinations this).

(** The four assignments of [loadCheckpoint]. *)
Definition restore_checkpoint (this : Recovery) (total valid : Z)
    (found : list string) (start : option Z) : Recovery :=
  mkRecovery (knownWords this) (missingPositions this) total valid
    (wordList this) (usdtContract this) start (combinationCount this)
    found (lastCheckpointTime this) (attemptedCombinations this).

(* ------------------------------------------------------------------ *)
(** ** generateCombination *)

Section GenerateCombination.

Local Open Scope result_scope.

(** The word index of the [index]-th missing position:
    [(combinationIndex / (V ** BigInt(M - 1 - index))) % V]. *)
Definition wordIndexOf (V M combinationIndex index : Z) : result Z :=
  let? p := BigInt.pow V (M - 1 - index) in
  let? q := BigInt.div combinationIndex p in
  BigInt.rem q V.

(** The body of [missingPositions.forEach((pos, index) => ...)], run over
    the positions still to visit. *)
Fixpoint forEach_missing (wl : list string) (M combinationIndex : Z)
    (positions : list Z) (index : Z) (candidateSeedPhrase : list jsword)
    : result (list jsword) :=
  match positions with
  | [] => Ok candidateSeedPhrase
  | pos :: rest =>
      let? wordIndex :=
        wordIndexOf (Z.of_nat (List.length wl)) M combinationIndex index in
      forEach_missing wl M combinationIndex rest (index + 1)
        (splice_insert (pos - 1) (array_get wl wordIndex) candidateSeedPhrase)
  end.

Definition generateCombination (this : Recovery) (combinationIndex : Z)
    : result (list jsword) :=
  forEach_missing (wordList this)
    (Z.of_nat (List.length (missingPositions this))) combinationIndex
    (missingPositions this) 0 (map Some (knownWords this)).

End GenerateCombination.

(* ------------------------------------------------------------------ *)
(** ** Templates and mixed-radix decoding, as the specification words them *)

Module Spec.

Inductive slot : Type :=
| Fixed (token : string)
| Free.

Definition template : Type := list slot.

(** [M]: the number of free slots. *)
Fixpoint freeCount (t : template) : Z :=
  match t with
  | [] => 0
  | Fixed _ :: t' => freeCount t'
  | Free :: t' => 1 + freeCount t'
  end.

(** [digitValue = floor(index / V^(M-1-i)) mod V]. *)
Definition digitValue (V M index i : Z) : Z :=
  (index / V ^ (M - 1 - i)) mod V.

(** Fill the slots from the left; [i] counts the free slots already met. *)
Fixpoint fill (vocabulary : list string) (M index : Z) (t : template) (i : Z)
    : list string :=
  match t with
  | [] => []
  | Fixed token :: t' => token :: fill vocabulary M index t' i
  | Free :: t' =>
      nth (Z.to_nat (digitValue (Z.of_nat (List.length vocabulary)) M index i))
          vocabulary ""
      :: fill vocabulary M index t' (i + 1)
  end.

Definition encode (vocabulary : list string) (t : template) (index : Z)
    : list string :=
  fill vocabulary (freeCount t) index t 0.

(** [SearchSpaceSize = V^M]. *)
Definition searchSpaceSize (vocabulary : list string) (t : template) : Z :=
  Z.of_nat (List.length vocabulary) ^ freeCount t.

End Spec.

(** How a template is handed to the class: the fixed tokens in order as
    [knownWords], the 1-based places of the free slots as
    [missingPositions]. *)
Fixpoint knownWords_of (t : Spec.template) : list string :=
  match t with
  | [] => []
  | Spec.Fixed token :: t' => token :: knownWords_of t'
  | Spec.Free :: t' => knownWords_of t'
  end.

Fixpoint free_positions_from (p : Z) (t : Spec.template) : list Z :=
  match t with
  | [] => []
  | Spec.Fixed _ :: t' => free_positions_from (p + 1) t'
  | Spec.Free :: t' => p :: free_positions_from (p + 1) t'
  end.

Definition missingPositions_of (t : Spec.template) : list Z :=
  free_positions_from 1 t.

(** A recovery object as the constructor leaves it, with the word list
    already loaded. *)
Definition recovery_for (kw : list string) (mp : list Z) (wl : list string)
    : Recovery :=
  {| knownWords := kw; missingPositions := mp;
     totalAttempts := 0; validAttempts := 0; wordList := wl;
     usdtContract := false; startTime := None; combinationCount := None;
     foundValidPhrases := []; lastCheckpointTime := 0;
     attemptedCombinations := [] |}.

Definition recovery_of_template (vocabulary : list string) (t : Spec.template)
    : Recovery :=
  recovery_for (knownWords_of t) (missingPositions_of t) vocabulary.

(* ------------------------------------------------------------------ *)
(** ** Numbers: [V ** M] on IEEE 754 doubles and [BigInt(number)]

    [this.wordList.length ** this.missingPositions.length] is an
    exponentiation of Numbers, that is of binary64 floating-point values;
    only its result is handed to [BigInt].  ECMAScript leaves the accuracy
    of [**] to the implementation; the model takes the best case, the
    double nearest to the exact power (ties to even), computed with the
    Standard Library's executable IEEE 754 specification. *)

Module Number.

Definition prec : Z := 53.
Definition emax : Z := 1024.

(** A Number is a specified binary64 value. *)
Definition valid (x : spec_float) : bool := valid_binary prec emax x.

(** [base ** exponent] for non-negative integers. *)
Definition pow (base exponent : Z) : spec_float :=
  binary_normalize prec emax (base ^ exponent) 0 false.

(** [BigInt(x)]: the integer [x] stands for; a RangeError when [x] is not
    an integer (which includes the infinities and NaN). *)
Definition toBigInt (x : spec_float) : result Z :=
  match x with
  | S754_zero _ => Ok 0
  | S754_finite s m e =>
      if 0 <=? e then Ok (cond_Zopp s (Zpos m * 2 ^ e))
      else if Zpos m mod 2 ^ (- e) =? 0
           then Ok (cond_Zopp s (Zpos m / 2 ^ (- e)))
           else Throw (RangeError "The number cannot be converted to a BigInt because it is not an integer")
  | S754_infinity _ | S754_nan =>
      Throw (RangeError "The number cannot be converted to a BigInt because it is not an integer")
  end.

End Number.

(** [BigInt(this.wordList.length ** this.missingPositions.length)]. *)
Definition computeCombinationCount (this : Recovery) : result Z :=
  Number.toBigInt
    (Number.pow (Z.of_nat (List.length (wordList this)))
                (Z.of_nat (List.length (missingPositions this)))).

(* ------------------------------------------------------------------ *)
(** ** Strings *)

Module Str.

(** White space of [trim], on the ASCII range: tab, line feed, vertical
    tab, form feed, carriage return and space. *)
Definition is_whitespace (c : ascii) : bool :=
  let n := nat_of_ascii c in
  ((9 <=? n)%nat && (n <=? 13)%nat) || (n =? 32)%nat.

Fixpoint trimStart (s : string) : string :=
  match s with
  | EmptyString => EmptyString
  | String c s' => if is_whitespace c then trimStart s' else s
  end.

Fixpoint trimEnd (s : string) : string :=
  match s with
  | EmptyString => EmptyString
  | String c s' =>
      let r := trimEnd s' in
      if is_whitespace c && String.eqb r "" then EmptyString else String c r
  end.

Definition trim (s : string) : string := trimEnd (trimStart s).

(** [s.split(sep)] for a non-empty separator: [split_from] returns the
    piece under construction and the pieces after it; [skip] counts the
    characters of a separator occurrence still to pass over. *)
Fixpoint split_from (sep : string) (skip : nat) (s : string)
    : string * list string :=
  match s with
  | EmptyString => (EmptyString, [])
  | String c s' =>
      match skip with
      | S k => split_from sep k s'
      | O =>
          if String.prefix sep s
          then let (p, ps) := split_from sep (String.length sep - 1) s' in
               (EmptyString, p :: ps)
          else let (p, ps) := split_from sep 0 s' in
               (String c p, ps)
      end
  end.

Definition split (sep s : string) : list string :=
  let (p, ps) := split_from sep 0 s in p :: ps.

End Str.

(* ------------------------------------------------------------------ *)
(** ** BigInt and text *)

Module BigIntText.

(** [n.toString()]: decimal digits, a leading minus sign when negative. *)
Definition toString (n : Z) : string :=
  NilZero.string_of_int (Z.to_int n).

(** The value of a digit character (0-9, a-z, A-Z). *)
Definition digit_of_ascii (c : ascii) : option Z :=
  let n := Z.of_nat (nat_of_ascii c) in
  if (48 <=? n) && (n <=? 57) then Some (n - 48)
  else if (97 <=? n) && (n <=? 122) then Some (n - 87)
  else if (65 <=? n) && (n <=? 90) then Some (n - 55)
  else None.

Fixpoint parse_digits (base : Z) (s : string) (acc : Z) : option Z :=
  match s with
  | EmptyString => Some acc
  | String c s' =>
      match digit_of_ascii c with
      | Some d => if d <? base then parse_digits base s' (acc * base + d) else None
      | None => None
      end
  end.

(** At least one digit, all of them below [base]. *)
Definition parse_nonempty (base : Z) (s : string) : option Z :=
  match s with
  | EmptyString => None
  | _ => parse_digits base s 0
  end.

(** StringToBigInt: the text is trimmed; the empty text is 0; otherwise a
    signed decimal literal, or an unsigned literal with prefix 0x, 0o or
    0b. *)
Definition parse (s : string) : option Z :=
  match Str.trim s with
  | EmptyString => Some 0
  | String "0" (String "x" r) | String "0" (String "X" r) => parse_nonempty 16 r
  | String "0" (String "o" r) | String "0" (String "O" r) => parse_nonempty 8 r
  | String "0" (String "b" r) | String "0" (String "B" r) => parse_nonempty 2 r
  | String "-" r => option_map Z.opp (parse_nonempty 10 r)
  | String "+" r => parse_nonempty 10 r
  | t => parse_nonempty 10 t
  end.

(** [BigInt(text)]. *)
Definition ofString (s : string) : result Z :=
  match parse s with
  | Some n => Ok n
  | None => Throw (SyntaxError "Cannot convert to a BigInt")
  end.

(** [n.toLocaleString()] in the en-US locale: the decimal digits in groups
    of three separated by commas. *)
Fixpoint group3 (digits_rev : list ascii) (k : nat) : list ascii :=
  match digits_rev with
  | [] => []
  | c :: rest =>
      match k, rest with
      | 2%nat, _ :: _ => c :: ","%char :: group3 rest 0
      | _, _ => c :: group3 rest (S k)
      end
  end.

Definition toLocaleString (n : Z) : string :=
  let digits := list_ascii_of_string (toString (Z.abs n)) in
  let grouped := string_of_list_ascii (List.rev (group3 (List.rev digits) 0)) in
  if n <? 0 then String "-" grouped else grouped.

End BigIntText.

(** [numbers.join(sep)] for an array of integer Numbers. *)
Definition join_numbers (sep : string) (l : list Z) : string :=
  join sep (map BigIntText.toString l).

(* ------------------------------------------------------------------ *)
(** ** The world outside the process

    Two files (the ledger at [logFilePath], the checkpoint at
    [checkpointPath], taken to be different paths), a clock and the
    services the class calls.  Every interaction with the outside takes one
    tick; whether an I/O operation fails, what the clock shows and what the
    balance service answers are functions of the tick, so that any pattern
    of failures can be written down and run. *)

(** The object [saveCheckpoint] hands to [JSON.stringify]. *)
Record Checkpoint : Type := mkCheckpoint {
  ck_totalAttempts : string;
  ck_validAttempts : Z;
  ck_foundValidPhrases : list string;
  ck_startTime : option Z;
  ck_timestamp : Z
}.

(** The text of the checkpoint file, up to [JSON.parse]: either the text
    [JSON.stringify] gives for a checkpoint object, which [JSON.parse]
    reads back as that object, or text that [JSON.parse] rejects.  The
    [totalAttempts] field is any text, so a file whose count does not read
    as a BigInt is covered; JSON of another shape is not. *)
Inductive checkpointText : Type :=
| CheckpointJSON (c : Checkpoint)
| NotJSON.

Inductive event : Type :=
| LedgerWrite (content : string) (ok : bool)      (* fs.writeFile(logFilePath, ...) *)
| LedgerAppend (text : string) (ok : bool)        (* fs.appendFile(logFilePath, ...) *)
| CheckpointWrite (c : Checkpoint) (ok : bool)    (* fs.writeFile(checkpointPath, ...) *)
| Validate (seedPhrase : list jsword)             (* validateSeedPhrase entered *)
| ConsoleError (context : string) (e : error).    (* console.error(context, error) *)

Record World : Type := mkWorld {
  logFile : option string;                 (* None: no such file *)
  checkpointFile : option checkpointText;  (* None: no such file *)
  ticks : nat;
  trace : list event                       (* most recent first *)
}.

Record Env : Type := mkEnv {
  wordListPromise : list string;           (* what the promise resolves to *)
  io_fails : nat -> bool;                  (* the I/O operation at this tick fails *)
  clock : nat -> Z;                        (* Date.now() at this tick *)
  toISOString : Z -> string;               (* new Date(ms).toISOString() *)
  Wallet_fromPhrase : string -> option string;   (* the address; None: throws *)
  balanceOf : nat -> string -> option Z    (* the balance; None: the call fails *)
}.

(** Computations that read and change the world and may throw. *)
Definition IO (A : Type) : Type := World -> result A * World.

Definition ret {A : Type} (a : A) : IO A := fun w => (Ok a, w).

Definition bind {A B : Type} (m : IO A) (k : A -> IO B) : IO B :=
  fun w => match m w with
           | (Ok a, w') => k a w'
           | (Throw e, w') => (Throw e, w')
           end.

Definition throw {A : Type} (e : error) : IO A := fun w => (Throw e, w).

Definition lift {A : Type} (r : result A) : IO A := fun w => (r, w).

(** [try { body } catch (error) { handler }]. *)
Definition try_catch {A : Type} (body : IO A) (handler : error -> IO A) : IO A :=
  fun w => match body w with
           | (Ok a, w') => (Ok a, w')
           | (Throw e, w') => handler e w'
           end.

Declare Scope io_scope.
Delimit Scope io_scope with io.
Notation "x <- m ;; k" := (bind m (fun x => k))
  (at level 100, m at next level, right associativity) : io_scope.
Notation "m ;;; k" := (bind m (fun _ => k))
  (at level 100, right associativity) : io_scope.

Definition tick (w : World) : World :=
  mkWorld (logFile w) (checkpointFile w) (S (ticks w)) (trace w).

Definition emit (ev : event) (w : World) : World :=
  mkWorld (logFile w) (checkpointFile w) (ticks w) (ev :: trace w).

Definition console_error (context : string) (e : error) : IO unit :=
  fun w => (Ok tt, emit (ConsoleError context e) w).

(** The line feed character. *)
Definition nl : string := String (ascii_of_nat 10) EmptyString.

Definition ATTEMPTED_START : string :=
  ("# ATTEMPTED_COMBINATIONS_START" ++ nl)%string.

(** Sets of BigInts: [has], [add], [new Set(array)]. *)
Definition Set_has (s : list Z) (x : Z) : bool := existsb (Z.eqb x) s.

Definition Set_add (x : Z) (s : list Z) : list Z :=
  if Set_has s x then s else s ++ [x].

Definition Set_of_array (l : list Z) : list Z :=
  fold_left (fun s x => Set_add x s) l [].

(** [array.map(f)] where [f] may throw. *)
Fixpoint map_result {A B : Type} (f : A -> result B) (l : list A) : result (list B) :=
  match l with
  | [] => Ok []
  | x :: l' =>
      match f x with
      | Ok y => match map_result f l' with
                | Ok ys => Ok (y :: ys)
                | Throw e => Throw e
                end
      | Throw e => Throw e
      end
  end.

(** [Number(ethers.formatUnits(balance, 18)) > 100]: [formatUnits] prints
    [balance / 10^18] exactly and [Number] rounds it to the nearest double.
    The double after 100 is [100 + 2^-46] and a tie goes to 100, whose
    significand is even, so the rounded value exceeds 100 exactly when
    [balance / 10^18 > 100 + 2^-47]. *)
Definition balanceInUSDT_gt_100 (balance : Z) : bool :=
  (100 * 2 ^ 47 + 1) * 10 ^ 18 <? balance * 2 ^ 47.

Section Driver.

Variable E : Env.

Local Open Scope io_scope.

(** *** The outside operations *)

Definition Date_now : IO Z :=
  fun w => (Ok (clock E (ticks w)), tick w).

Definition fs_writeFile_log (content : string) : IO unit :=
  fun w =>
    if io_fails E (ticks w)
    then (Throw (IOError "writeFile"), emit (LedgerWrite content false) (tick w))
    else (Ok tt,
          mkWorld (Some content) (checkpointFile w) (S (ticks w))
                  (LedgerWrite content true :: trace w)).

Definition fs_appendFile_log (text : string) : IO unit :=
  fun w =>
    if io_fails E (ticks w)
    then (Throw (IOError "appendFile"), emit (LedgerAppend text false) (tick w))
    else (Ok tt,
          mkWorld (Some (match logFile w with
                         | Some old => (old ++ text)%string
                         | None => text
                         end))
                  (checkpointFile w) (S (ticks w))
                  (LedgerAppend text true :: trace w)).

Definition fs_readFile_log : IO string :=
  fun w =>
    if io_fails E (ticks w) then (Throw (IOError "readFile"), tick w)
    else match logFile w with
         | Some content => (Ok content, tick w)
         | None => (Throw (IOError "ENOENT"), tick w)
         end.

Definition fs_access_checkpoint : IO unit :=
  fun w =>
    if io_fails E (ticks w) then (Throw (IOError "access"), tick w)
    else match checkpointFile w with
         | Some _ => (Ok tt, tick w)
         | None => (Throw (IOError "ENOENT"), tick w)
         end.

Definition fs_readFile_checkpoint : IO checkpointText :=
  fun w =>
    if io_fails E (ticks w) then (Throw (IOError "readFile"), tick w)
    else match checkpointFile w with
         | Some text => (Ok text, tick w)
         | None => (Throw (IOError "ENOENT"), tick w)
         end.

Definition fs_writeFile_checkpoint (c : Checkpoint) : IO unit :=
  fun w =>
    if io_fails E (ticks w)
    then (Throw (IOError "writeFile"), emit (CheckpointWrite c false) (tick w))
    else (Ok tt,
          mkWorld (logFile w) (Some (CheckpointJSON c)) (S (ticks w))
                  (CheckpointWrite c true :: trace w)).

Definition JSON_parse (text : checkpointText) : result Checkpoint :=
  match text with
  | CheckpointJSON c => Ok c
  | NotJSON => Throw (SyntaxError "Unexpected token in JSON")
  end.

(** [ethers.Wallet.fromPhrase(mnemonic).address]. *)
Definition Wallet_address (mnemonic : string) : IO string :=
  fun w => match Wallet_fromPhrase E mnemonic with
           | Some address => (Ok address, w)
           | None => (Throw (Error "invalid mnemonic"), w)
           end.

(** [await this.usdtContract.balanceOf(address)]. *)
Definition usdtContract_balanceOf (this : Recovery) (address : string) : IO Z :=
  fun w =>
    if usdtContract this
    then match balanceOf E (ticks w) address with
         | Some balance => (Ok balance, tick w)
         | None => (Throw (Error "call failed"), tick w)
         end
    else (Throw (TypeError "Cannot read properties of null"), w).

(** *** The constructor *)

Definition new_Recovery (known : list string) (missing : list Z) : IO Recovery :=
  now <- Date_now ;;
  ret {| knownWords := known; missingPositions := missing;
         totalAttempts := 0; validAttempts := 0; wordList := [];
         usdtContract := false; startTime := None; combinationCount := None;
         foundValidPhrases := []; lastCheckpointTime := now;
         attemptedCombinations := [] |}.

(** *** saveCheckpoint, loadCheckpoint *)

Definition saveCheckpoint (this : Recovery) : IO unit :=
  try_catch
    (timestamp <- Date_now ;;
     fs_writeFile_checkpoint
       {| ck_totalAttempts := BigIntText.toString (totalAttempts this);
          ck_validAttempts := validAttempts this;
          ck_foundValidPhrases := foundValidPhrases this;
          ck_startTime := startTime this;
          ck_timestamp := timestamp |} ;;;
     _ <- Date_now ;;      (* new Date() of the console message *)
     ret tt)
    (fun error => console_error "Error saving checkpoint:" error).

Definition loadCheckpoint (this : Recovery) : IO (bool * Recovery) :=
  try_catch
    (checkpointExists <-
       try_catch (fs_access_checkpoint ;;; ret true) (fun _ => ret false) ;;
     if checkpointExists : bool
     then
       text <- fs_readFile_checkpoint ;;
       checkpointData <- lift (JSON_parse text) ;;
       total <- lift (BigIntText.ofString (ck_totalAttempts checkpointData)) ;;
       ret (true,
            restore_checkpoint this total
              (ck_validAttempts checkpointData)
              (ck_foundValidPhrases checkpointData)
              (ck_startTime checkpointData))
     else ret (false, this))
    (fun error =>
       console_error "Error loading checkpoint:" error ;;; ret (false, this)).

(** *** initialize *)

(** [!this.startTime]. *)
Definition startTime_unset (this : Recovery) : bool :=
  match startTime this with
  | None => true
  | Some t => t =? 0
  end.

Definition initialize (this : Recovery) : IO Recovery :=
  let this := set_wordList this (wordListPromise E) in
  if (List.length (wordList this) =? 0)%nat
  then throw (Error "Failed to load word list. Ensure english.txt is present.")
  else
    let invalidWords :=
      filter (fun word => negb (includes (wordList this) word)) (knownWords this) in
    if (0 <? List.length invalidWords)%nat
    then throw (Error ("Invalid words in known words: " ++ join ", " invalidWords)%string)
    else
      count <- lift (computeCombinationCount this) ;;
      let this := set_combinationCount this (Some count) in
      loaded <- loadCheckpoint this ;;
      let this := set_usdtContract (snd loaded) true in
      if startTime_unset this
      then now <- Date_now ;; ret (set_startTime this (Some now))
      else ret this.

(** *** isValidBIP39Phrase, validateSeedPhrase *)

Definition isValidBIP39Phrase (this : Recovery) (seedPhrase : list jsword) : bool :=
  forallb (includes_js (wordList this)) seedPhrase.

Definition validateSeedPhrase (this : Recovery) (seedPhrase : list jsword) : IO bool :=
  fun w =>
    try_catch
      (if negb (isValidBIP39Phrase this seedPhrase)
       then ret false
       else
         let mnemonic := join_js " " seedPhrase in
         address <- Wallet_address mnemonic ;;
         balance <- usdtContract_balanceOf this address ;;
         ret (balanceInUSDT_gt_100 balance))
      (fun _ => ret false)
      (emit (Validate seedPhrase) w).

(** *** The ledger *)

Definition logAttemptedCombination (this : Recovery) (combinationIndex : Z)
    : IO Recovery :=
  try_catch
    (fs_appendFile_log (BigIntText.toString combinationIndex ++ nl)%string ;;;
     ret (set_attemptedCombinations this
            (Set_add combinationIndex (attemptedCombinations this))))
    (fun error =>
       console_error "Error logging attempted combination:" error ;;; ret this).

Definition logSeedPhraseAttempt (this : Recovery) (seedPhrase : list jsword)
    (isValid : bool) : IO Recovery :=
  try_catch
    (if isValid
     then
       now <- Date_now ;;
       let logEntry :=
         (toISOString E now ++ " | Valid: true | Mnemonic: "
          ++ join_js " " seedPhrase ++ nl)%string in
       fs_appendFile_log logEntry ;;;
       ret (record_valid this (join_js " " seedPhrase))
     else ret this)
    (fun error =>
       console_error "Error writing to log file:" error ;;; ret this).

(** The header of the ledger; reading [toLocaleString] off a null
    [combinationCount] is a TypeError. *)
Definition logHeader (this : Recovery) (now : Z) : result string :=
  match combinationCount this with
  | None => Throw (TypeError "Cannot read properties of null")
  | Some count =>
      Ok ("USDT Seed Phrase Recovery Log" ++ nl
          ++ "Started at: " ++ toISOString E now ++ nl
          ++ "Known Words: " ++ join " " (knownWords this) ++ nl
          ++ "Missing Positions: " ++ join_numbers ", " (missingPositions this) ++ nl
          ++ "Total Possible Combinations: " ++ BigIntText.toLocaleString count ++ nl
          ++ "Word List Size: "
          ++ BigIntText.toString (Z.of_nat (List.length (wordList this))) ++ nl
          ++ "-------------------------------------------" ++ nl
          ++ ATTEMPTED_START)%string
  end.

Definition prepareLogFile (this : Recovery) : IO unit :=
  try_catch
    (now <- Date_now ;;
     header <- lift (logHeader this now) ;;
     fs_writeFile_log header)
    (fun error => console_error "Error preparing log file:" error).

Definition loadAttemptedCombinations (this : Recovery) : IO Recovery :=
  try_catch
    (logContent <- fs_readFile_log ;;
     match nth_error (Str.split ATTEMPTED_START logContent) 1 with
     | Some combinationsSection =>
         if String.eqb combinationsSection ""
         then ret this
         else
           attemptedLines <-
             lift (map_result (fun line => BigIntText.ofString (Str.trim line))
                     (filter (fun line => negb (String.eqb (Str.trim line) ""))
                        (Str.split nl combinationsSection))) ;;
           ret (set_attemptedCombinations this (Set_of_array attemptedLines))
     | None => ret this
     end)
    (fun error =>
       console_error "Error loading attempted combinations:" error ;;; ret this).

(** *** findValidSeedPhrases *)

(** The bound of the loop; comparing a BigInt with [null] compares it
    with 0. *)
Definition loop_bound (this : Recovery) : Z :=
  match combinationCount this with
  | Some count => count
  | None => 0
  end.

(** One turn of the [for] loop, at an index below the bound. *)
Definition loop_body (this : Recovery) (combinationIndex : Z) : IO Recovery :=
  if Set_has (attemptedCombinations this) combinationIndex
  then ret (set_totalAttempts this (combinationIndex + 1))
  else
    let this := set_totalAttempts this (combinationIndex + 1) in
    candidateSeedPhrase <- lift (generateCombination this combinationIndex) ;;
    this <- logAttemptedCombination this combinationIndex ;;
    isValid <- validateSeedPhrase this candidateSeedPhrase ;;
    this <- (if isValid : bool
             then logSeedPhraseAttempt this candidateSeedPhrase isValid
             else ret this) ;;
    (if Z.rem (totalAttempts this) LOGGING_INTERVAL =? 0
     then _ <- Date_now ;; ret tt       (* elapsed time of the progress line *)
     else ret tt) ;;;
    currentTime <- Date_now ;;
    if CHECKPOINT_INTERVAL <=? currentTime - lastCheckpointTime this
    then saveCheckpoint this ;;; ret (set_lastCheckpointTime this currentTime)
    else ret this.

(** The [for] loop, for at most [turns] turns from [combinationIndex]. *)
Fixpoint enumerate (turns : nat) (combinationIndex : Z) (this : Recovery)
    : IO Recovery :=
  match turns with
  | O => ret this
  | S turns' =>
      if combinationIndex <? loop_bound this
      then this <- loop_body this combinationIndex ;;
           enumerate turns' (combinationIndex + 1) this
      else ret this
  end.

(** The number of turns the loop takes from [totalAttempts] to its bound. *)
Definition turns_left (this : Recovery) : nat :=
  Z.to_nat (loop_bound this - totalAttempts this).

Definition findValidSeedPhrases (this : Recovery) : IO Recovery :=
  if (List.length (wordList this) =? 0)%nat
  then throw (Error "Word list not initialized. Call initialize() first.")
  else
    prepareLogFile this ;;;
    this <- loadAttemptedCombinations this ;;
    this <- enumerate (turns_left this) (totalAttempts this) this ;;
    saveCheckpoint this ;;;
    ret this.

(** The same call when the process is killed once the loop has taken
    [turns] turns: what was done up to then stays in the world. *)
Definition findValidSeedPhrases_killed (turns : nat) (this : Recovery) : IO Recovery :=
  if (List.length (wordList this) =? 0)%nat
  then throw (Error "Word list not initialized. Call initialize() first.")
  else
    prepareLogFile this ;;;
    this <- loadAttemptedCombinations this ;;
    enumerate (Nat.min turns (turns_left this)) (totalAttempts this) this.

(** *** main *)

Definition main (known : list string) (missing : list Z) : IO unit :=
  recovery <- new_Recovery known missing ;;
  try_catch
    (recovery <- initialize recovery ;;
     _ <- findValidSeedPhrases recovery ;;
     ret tt)
    (fun error => console_error "Error in recovery process:" error).

(** [main] killed after [turns] turns of the loop. *)
Definition main_killed (turns : nat) (known : list string) (missing : list Z)
    : IO unit :=
  recovery <- new_Recovery known missing ;;
  try_catch
    (recovery <- initialize recovery ;;
     _ <- findValidSeedPhrases_killed turns recovery ;;
     ret tt)
    (fun error => console_error "Error in recovery process:" error).

End Driver.

(** The indices written in the attempted section of a ledger text, as
    [loadAttemptedCombinations] would read them. *)
Definition ledger_indices (content : string) : list Z :=
  match nth_error (Str.split ATTEMPTED_START content) 1 with
  | Some section =>
      fold_right
        (fun line acc =>
           match BigIntText.parse line with
           | Some n => if String.eqb (Str.trim line) "" then acc else n :: acc
           | None => acc
           end)
        [] (Str.split nl section)
  | None => []
  end.

(** The candidates validated, oldest first. *)
Definition validated (tr : list event) : list (list jsword) :=
  fold_left
    (fun acc ev => match ev with Validate c => c :: acc | _ => acc end)
    tr [].

(** The world before anything ran: no ledger, no checkpoint. *)
Definition fresh_world : World := mkWorld None None 0 [].

(* ------------------------------------------------------------------ *)
(** ** Predicates and inputs used in the statements *)

(** A candidate element that is a word of the list. *)
Definition listed (wl : list string) (w : jsword) : Prop :=
  exists s, w = Some s /\ In s wl.

(** Texts made of decimal digits only. *)
Definition digit_chars : list ascii :=
  ["0"; "1"; "2"; "3"; "4"; "5"; "6"; "7"; "8"; "9"]%char.

Definition decimal (s : string) : Prop :=
  Forall (fun c => In c digit_chars) (list_ascii_of_string s).

(** The search [main] sets up: twelve slots, the tenth and the twelfth
    free. *)
Definition main_template : Spec.template :=
  map Spec.Fixed
      ["camp"; "jazz"; "custom"; "stairs"; "slush"; "caught"; "casino";
       "shock"; "master"]
  ++ [Spec.Free; Spec.Fixed "sea"; Spec.Free].

(** The template of the specification's example scenario. *)
Definition example_template : Spec.template :=
  [Spec.Fixed "x"; Spec.Free; Spec.Fixed "y"; Spec.Free].

(** A vocabulary of ten words and a template of 23 free slots. *)
Definition ten_words : list string :=
  ["a"; "b"; "c"; "d"; "e"; "f"; "g"; "h"; "i"; "j"].

Definition positions_1_to_23 : list Z := map Z.of_nat (seq 1 23).

(** An outside where nothing fails: the clock shows the tick, every
    phrase derives a wallet and every balance is 0. *)
Definition quiet_env (words : list string) : Env :=
  mkEnv words (fun _ => false) (fun n => Z.of_nat n) (fun _ => "T")
        (fun mnemonic => Some mnemonic) (fun _ _ => Some 0).

(** The known words that are not in the loaded word list. *)
Definition offenders (E : Env) (known : list string) : list string :=
  filter (fun word => negb (includes (wordListPromise E) word)) known.

(** Two recovery objects set up for the same search. *)
Definition same_setup (a b : Recovery) : Prop :=
  knownWords a = knownWords b
  /\ missingPositions a = missingPositions b
  /\ wordList a = wordList b
  /\ combinationCount a = combinationCount b.

Definition is_Validate (ev : event) : bool :=
  match ev with
  | Validate _ => true
  | _ => false
  end.

Definition no_validate (tr : list event) : Prop :=
  forallb (fun ev => negb (is_Validate ev)) tr = true.

(** What [logAttemptedCombination] leaves in the trace (most recent
    first): the append, and the report of its failure if it failed. *)
Definition attempt_record (combinationIndex : Z) (ok : bool) : list event :=
  (if ok then []
   else [ConsoleError "Error logging attempted combination:" (IOError "appendFile")])
  ++ [LedgerAppend (BigIntText.toString combinationIndex ++ nl)%string ok].

(** In a stretch of trace (most recent first), every validation comes
    right after the ledger append for the index of its candidate. *)
Definition record_precedes_validation (this : Recovery) (tr : list event) : Prop :=
  forall later candidate earlier,
    tr = later ++ Validate candidate :: earlier ->
    exists combinationIndex ok earlier',
      generateCombination this combinationIndex = Ok candidate
      /\ earlier = attempt_record combinationIndex ok ++ earlier'.

(** The balance lookup fails at every moment, for every address. *)
Definition oracle_down (E : Env) : Prop :=
  forall (n : nat) (address : string), balanceOf E n address = None.

Definition is_ConsoleError (ev : event) : bool :=
  match ev with
  | ConsoleError _ _ => true
  | _ => false
  end.



(** An outside where the clock jumps by five minutes just before tick 8,
    the end of the first turn of the loop in a run from [fresh_world]. *)
Definition clock_jump_env (words : list string) : Env :=
  mkEnv words (fun _ => false)
        (fun n => if (n <? 8)%nat then 0 else 300000 + Z.of_nat n)
        (fun _ => "T") (fun mnemonic => Some mnemonic) (fun _ _ => Some 0).

(** A ledger left by a search over three words with known words [x y]
    and position 3 missing, in which indices 0 and 1 were attempted. *)
Definition stale_ledger : string :=
  ("USDT Seed Phrase Recovery Log" ++ nl
   ++ "Started at: T" ++ nl
   ++ "Known Words: x y" ++ nl
   ++ "Missing Positions: 3" ++ nl
   ++ "Total Possible Combinations: 3" ++ nl
   ++ "Word List Size: 3" ++ nl
   ++ "-------------------------------------------" ++ nl
   ++ ATTEMPTED_START
   ++ "0" ++ nl ++ "1" ++ nl)%string.

Definition stale_world : World := mkWorld (Some stale_ledger) None 0 [].

(* ------------------------------------------------------------------ *)
(** ** Further notions used in the statements *)

(** The index whose base-[V] digits, most significant first, are
    [digits]. *)
Definition index_of_digits (V : Z) (digits : list Z) : Z :=
  fold_left (fun acc d => acc * V + d) digits 0.

(** A template with its free slots filled, in order, by the given words. *)
Fixpoint fill_words (t : Spec.template) (ws : list string) : list string :=
  match t with
  | [] => []
  | Spec.Fixed token :: t' => token :: fill_words t' ws
  | Spec.Free :: t' =>
      match ws with
      | w :: ws' => w :: fill_words t' ws'
      | [] => "" :: fill_words t' []
      end
  end.

(** A stretch of trace made of error reports only. *)
Definition only_reports (tr : list event) : Prop :=
  forallb is_ConsoleError tr = true.

(** [n] consecutive indices from [start]. *)
Fixpoint zrange (start : Z) (n : nat) : list Z :=
  match n with
  | O => []
  | S n' => start :: zrange (start + 1) n'
  end.

(** The indices of a stretch that are not in the attempted set. *)
Definition pending (attempted : list Z) (start : Z) (n : nat) : list Z :=
  filter (fun i => negb (Set_has attempted i)) (zrange start n).

(** [candidates] are the candidates of [indices], in order. *)
Definition candidates_of (this : Recovery) (indices : list Z)
    (candidates : list (list jsword)) : Prop :=
  Forall2 (fun i c => generateCombination this i = Ok c) indices candidates.

(** From [before] to [after], matches were only added, and the count of
    valid phrases grew by as many as the list of found phrases. *)
Definition matches_kept (before after : Recovery) : Prop :=
  exists more,
    foundValidPhrases after = foundValidPhrases before ++ more
    /\ validAttempts after = validAttempts before + Z.of_nat (List.length more).

(** The character [x] does not occur in [s]. *)
Definition no_char (x : ascii) (s : string) : Prop :=
  Forall (fun c => c <> x) (list_ascii_of_string s).

(** The text [logAttemptedCombination] appends for the indices of [l], in
    order: one decimal index per line. *)
Fixpoint ledger_lines (l : list Z) : string :=
  match l with
  | [] => EmptyString
  | i :: l' => (BigIntText.toString i ++ nl ++ ledger_lines l')%string
  end.

(** The line [logSeedPhraseAttempt] appends for a match. *)
Definition match_line (isoTime mnemonic : string) : string :=
  (isoTime ++ " | Valid: true | Mnemonic: " ++ mnemonic ++ nl)%string.

(* ================================================================== *)
(** * Properties *)

Lemma Ok_inj {A : Type} (a b : A) : Ok a = Ok b -> a = b.
Proof. intros H. injection H as H. exact H. Qed.

(** ** The encoder against mixed-radix decoding *)

Section Encoder.

Lemma wordIndexOf_digit (V M idx i : Z) :
  0 <= idx -> 0 < V -> 0 <= i < M ->
  wordIndexOf V M idx i = Ok (Spec.digitValue V M idx i).
Proof.
  intros Hidx HV Hi.
  unfold wordIndexOf, BigInt.pow, BigInt.div, BigInt.rem, Spec.digitValue.
  assert (Hp : 0 < V ^ (M - 1 - i)) by (apply Z.pow_pos_nonneg; lia).
  destruct (Z.ltb_spec (M - 1 - i) 0); [lia|]. cbn [rbind].
  destruct (Z.eqb_spec (V ^ (M - 1 - i)) 0); [lia|]. cbn [rbind].
  destruct (Z.eqb_spec V 0); [lia|].
  rewrite Z.quot_div_nonneg by lia.
  rewrite Z.rem_mod_nonneg; [reflexivity| |lia].
  apply Z.div_pos; lia.
Qed.

Lemma digitValue_range (V M idx i : Z) :
  0 < V -> 0 <= Spec.digitValue V M idx i < V.
Proof. intros HV. unfold Spec.digitValue. apply Z.mod_pos_bound; lia. Qed.

Lemma array_get_digit (wl : list string) (d : Z) :
  0 <= d < Z.of_nat (List.length wl) ->
  array_get wl d = Some (nth (Z.to_nat d) wl "").
Proof.
  intros Hd. unfold array_get.
  destruct (Z.ltb_spec d 0); [lia|].
  apply nth_error_nth'. lia.
Qed.

Lemma splice_insert_at_end {A : Type} (done rest : list A) (item : A) :
  splice_insert (Z.of_nat (List.length done)) item (done ++ rest)
  = (done ++ [item]) ++ rest.
Proof.
  unfold splice_insert. cbv zeta.
  destruct (Z.ltb_spec (Z.of_nat (List.length done)) 0); [lia|].
  rewrite Z.min_l by (rewrite length_app; lia).
  rewrite Nat2Z.id, firstn_app, skipn_app, Nat.sub_diag, firstn_all, skipn_all.
  cbn. rewrite app_nil_r, <- app_assoc. reflexivity.
Qed.

Lemma freeCount_nonneg (t : Spec.template) : 0 <= Spec.freeCount t.
Proof. induction t as [|[w|] t IH]; cbn [Spec.freeCount]; lia. Qed.

Lemma length_free_positions (t : Spec.template) (p : Z) :
  Z.of_nat (List.length (free_positions_from p t)) = Spec.freeCount t.
Proof.
  revert p. induction t as [|[w|] t IH]; intros p; cbn [free_positions_from Spec.freeCount].
  - reflexivity.
  - apply IH.
  - cbn [List.length]. rewrite Nat2Z.inj_succ, IH. lia.
Qed.

(** The loop invariant: once the slots to the left are resolved into
    [done], visiting the remaining free positions resolves the rest. *)
Lemma forEach_missing_fill (wl : list string) (M idx : Z) (t : Spec.template) :
  forall (done : list jsword) (i : Z),
    0 <= idx -> 0 <= i -> i + Spec.freeCount t = M ->
    (0 < Spec.freeCount t -> 0 < Z.of_nat (List.length wl)) ->
    forEach_missing wl M idx
      (free_positions_from (Z.of_nat (List.length done) + 1) t) i
      (done ++ map Some (knownWords_of t))
    = Ok (done ++ map Some (Spec.fill wl M idx t i)).
Proof.
  induction t as [|[w|] t IH]; intros done i Hidx Hi HM HV;
    cbn [free_positions_from knownWords_of Spec.fill Spec.freeCount map forEach_missing] in *.
  - reflexivity.
  - specialize (IH (done ++ [Some w]) i Hidx Hi HM HV).
    rewrite length_app, Nat2Z.inj_add in IH. cbn [List.length] in IH.
    rewrite <- !app_assoc in IH. cbn [app] in IH.
    replace (Z.of_nat (List.length done) + 1 + 1)
      with (Z.of_nat (List.length done) + Z.of_nat 1 + 1) by lia.
    exact IH.
  - pose proof (freeCount_nonneg t) as Hf.
    assert (HV' : 0 < Z.of_nat (List.length wl)) by (apply HV; lia).
    rewrite wordIndexOf_digit by lia. cbn [rbind].
    rewrite array_get_digit by (apply digitValue_range; lia).
    replace (Z.of_nat (List.length done) + 1 - 1)
      with (Z.of_nat (List.length done)) by lia.
    rewrite splice_insert_at_end.
    set (wd := nth _ wl "").
    specialize (IH (done ++ [Some wd]) (i + 1) Hidx).
    rewrite length_app, Nat2Z.inj_add in IH. cbn [List.length] in IH.
    rewrite <- !app_assoc in IH. cbn [app] in IH.
    replace (Z.of_nat (List.length done) + 1 + 1)
      with (Z.of_nat (List.length done) + Z.of_nat 1 + 1) by lia.
    rewrite <- app_assoc. cbn [app].
    apply IH; lia.
Qed.

(** [generateCombination] computes the specification's [encode] on every
    non-negative index, whatever the vocabulary holds. *)
Lemma generateCombination_encode (vocabulary : list string) (t : Spec.template) (idx : Z) :
  0 <= idx ->
  (0 < Spec.freeCount t -> vocabulary <> []) ->
  generateCombination (recovery_of_template vocabulary t) idx
  = Ok (map Some (Spec.encode vocabulary t idx)).
Proof.
  intros Hidx HV.
  unfold generateCombination, recovery_of_template, recovery_for, Spec.encode,
    missingPositions_of.
  cbn [wordList missingPositions knownWords].
  rewrite length_free_positions.
  apply (forEach_missing_fill vocabulary (Spec.freeCount t) idx t [] 0); try lia.
  intros Hf. specialize (HV Hf). destruct vocabulary; [congruence|cbn; lia].
Qed.

Lemma index_in_space_vocabulary (vocabulary : list string) (t : Spec.template) (idx : Z) :
  0 <= idx < Spec.searchSpaceSize vocabulary t ->
  0 < Spec.freeCount t -> vocabulary <> [].
Proof.
  unfold Spec.searchSpaceSize. intros Hidx Hf ->. cbn [List.length Z.of_nat] in Hidx.
  rewrite Z.pow_0_l in Hidx by lia. lia.
Qed.

End Encoder.

(** The arguments of [main] are the class's form of [main_template]. *)
Example main_arguments :
  knownWords_of main_template
  = ["camp"; "jazz"; "custom"; "stairs"; "slush"; "caught"; "casino";
     "shock"; "master"; "sea"]
  /\ missingPositions_of main_template = [10; 12].
Proof. split; reflexivity. Qed.

(** C1: for every duplicate-free vocabulary, every template and every index
    in [0, V^M), [generateCombination] returns the mixed-radix decoding of
    the index: free slot [i] receives
    [Vocabulary[floor(index / V^(M-1-i)) mod V]] and fixed slots are copied;
    with [a, b, c] and [Fixed x, Free, Fixed y, Free] the indices 0, 4 and 8
    give [x a y a], [x b y b] and [x c y c]. *)
Theorem generateCombination_mixed_radix :
  (forall (vocabulary : list string) (t : Spec.template) (idx : Z),
      NoDup vocabulary ->
      0 <= idx < Spec.searchSpaceSize vocabulary t ->
      generateCombination (recovery_of_template vocabulary t) idx
      = Ok (map Some (Spec.encode vocabulary t idx)))
  /\ generateCombination (recovery_of_template ["a"; "b"; "c"] example_template) 0
     = Ok [Some "x"; Some "a"; Some "y"; Some "a"]
  /\ generateCombination (recovery_of_template ["a"; "b"; "c"] example_template) 4
     = Ok [Some "x"; Some "b"; Some "y"; Some "b"]
  /\ generateCombination (recovery_of_template ["a"; "b"; "c"] example_template) 8
     = Ok [Some "x"; Some "c"; Some "y"; Some "c"].
Proof.
  split; [|repeat split; reflexivity].
  intros vocabulary t idx _ Hidx.
  apply generateCombination_encode; [lia|].
  now apply index_in_space_vocabulary with (idx := idx).
Qed.

(** ** Injectivity of the encoder *)

Section Injectivity.

(** The digits of an index in [0, V^M) determine it. *)
Lemma digits_determine_index (V : Z) (m : nat) :
  0 < V ->
  forall a b : Z,
    0 <= a < V ^ Z.of_nat m -> 0 <= b < V ^ Z.of_nat m ->
    (forall k, 0 <= k < Z.of_nat m ->
       Spec.digitValue V (Z.of_nat m) a k = Spec.digitValue V (Z.of_nat m) b k) ->
    a = b.
Proof.
  intros HV. induction m as [|m IH]; intros a b Ha Hb Hdig.
  - cbn in Ha, Hb. lia.
  - rewrite Nat2Z.inj_succ, Z.pow_succ_r in Ha, Hb by lia.
    assert (Hq : a / V = b / V).
    { apply IH.
      - split; [apply Z.div_pos; lia|apply Z.div_lt_upper_bound; lia].
      - split; [apply Z.div_pos; lia|apply Z.div_lt_upper_bound; lia].
      - intros k Hk.
        specialize (Hdig k ltac:(lia)). unfold Spec.digitValue in *.
        rewrite Nat2Z.inj_succ in Hdig.
        replace (Z.succ (Z.of_nat m) - 1 - k) with (Z.succ (Z.of_nat m - 1 - k)) in Hdig by lia.
        rewrite Z.pow_succ_r in Hdig by lia.
        rewrite <- !Z.div_div in Hdig;
          first [exact Hdig | lia | apply Z.pow_pos_nonneg; lia]. }
    assert (Hr : a mod V = b mod V).
    { specialize (Hdig (Z.of_nat m) ltac:(lia)). unfold Spec.digitValue in Hdig.
      rewrite Nat2Z.inj_succ in Hdig.
      replace (Z.succ (Z.of_nat m) - 1 - Z.of_nat m) with 0 in Hdig by lia.
      rewrite Z.pow_0_r, !Z.div_1_r in Hdig. exact Hdig. }
    rewrite (Z.div_mod a V), (Z.div_mod b V) by lia. congruence.
Qed.

(** Two fillings of one template agree only if all their digits agree,
    as long as the vocabulary has no duplicate. *)
Lemma fill_eq_digits (wl : list string) (M a b : Z) (t : Spec.template) :
  NoDup wl -> 0 < Z.of_nat (List.length wl) ->
  forall i : Z,
    Spec.fill wl M a t i = Spec.fill wl M b t i ->
    forall k, i <= k < i + Spec.freeCount t ->
      Spec.digitValue (Z.of_nat (List.length wl)) M a k
      = Spec.digitValue (Z.of_nat (List.length wl)) M b k.
Proof.
  intros Hnd HV. induction t as [|[w|] t IH]; intros i Heq k Hk;
    cbn [Spec.fill Spec.freeCount] in *.
  - lia.
  - injection Heq as Heq. now apply (IH i).
  - injection Heq as Hhd Htl.
    destruct (Z.eq_dec k i) as [->|Hne].
    + pose proof (digitValue_range (Z.of_nat (List.length wl)) M a i HV) as Ha.
      pose proof (digitValue_range (Z.of_nat (List.length wl)) M b i HV) as Hb.
      apply (proj1 (NoDup_nth wl "") Hnd) in Hhd; lia.
    + apply (IH (i + 1)); [exact Htl|lia].
Qed.

Lemma map_Some_inj {A : Type} (l l' : list A) :
  map Some l = map Some l' -> l = l'.
Proof.
  revert l'. induction l as [|x l IH]; intros [|y l'] H; cbn in H;
    try discriminate; [reflexivity|].
  injection H as -> H. f_equal. now apply IH.
Qed.

End Injectivity.

(** C2: for every duplicate-free vocabulary and every template, two
    different indices of [0, V^M) never yield the same candidate. *)
Theorem generateCombination_injective
    (vocabulary : list string) (t : Spec.template) (i j : Z) :
  NoDup vocabulary ->
  0 <= i < Spec.searchSpaceSize vocabulary t ->
  0 <= j < Spec.searchSpaceSize vocabulary t ->
  i <> j ->
  generateCombination (recovery_of_template vocabulary t) i
  <> generateCombination (recovery_of_template vocabulary t) j.
Proof.
  intros Hnd Hi Hj Hne Heq.
  rewrite !generateCombination_encode in Heq;
    try lia; try (now eapply index_in_space_vocabulary; eauto).
  injection Heq as Heq. apply map_Some_inj in Heq.
  apply Hne. unfold Spec.searchSpaceSize in Hi, Hj.
  pose proof (freeCount_nonneg t) as Hf.
  destruct (Z.eq_dec (Spec.freeCount t) 0) as [H0|H0].
  - rewrite H0 in Hi, Hj. cbn in Hi, Hj. lia.
  - assert (HV : 0 < Z.of_nat (List.length vocabulary)).
    { destruct vocabulary; [|cbn; lia].
      cbn [List.length Z.of_nat] in Hi. rewrite Z.pow_0_l in Hi by lia. lia. }
    rewrite <- (Z2Nat.id (Spec.freeCount t)) in Hi, Hj by lia.
    apply (digits_determine_index _ _ HV i j Hi Hj).
    intros k Hk. rewrite Z2Nat.id in * by lia.
    apply (fill_eq_digits vocabulary _ i j t Hnd HV 0 Heq). lia.
Qed.

Lemma generateCombination_injective_witness :
  generateCombination (recovery_of_template ["a"; "b"; "c"] example_template) 4
  <> generateCombination (recovery_of_template ["a"; "b"; "c"] example_template) 8.
Proof.
  apply generateCombination_injective.
  - repeat constructor; cbn; intuition discriminate.
  - unfold Spec.searchSpaceSize; cbn; lia.
  - unfold Spec.searchSpaceSize; cbn; lia.
  - lia.
Defined.

Lemma generateCombination_mixed_radix_witness :
  generateCombination (recovery_of_template ["a"; "b"; "c"] example_template) 5
  = Ok (map Some (Spec.encode ["a"; "b"; "c"] example_template 5)).
Proof.
  apply (proj1 generateCombination_mixed_radix).
  - repeat constructor; cbn; intuition discriminate.
  - unfold Spec.searchSpaceSize; cbn; lia.
Defined.

(** ** The size of the search space *)

Section CombinationCount.

Lemma digits2_pos_bound (m : positive) :
  Zpos m < 2 ^ Zpos (digits2_pos m).
Proof.
  induction m as [m IH|m IH|]; cbn [digits2_pos].
  - rewrite Pos2Z.inj_succ, Z.pow_succ_r by lia. lia.
  - rewrite Pos2Z.inj_succ, Z.pow_succ_r by lia. lia.
  - cbn. lia.
Qed.

(** The significand of a double is below 2^53. *)
Lemma valid_finite_mantissa (s : bool) (m : positive) (e : Z) :
  Number.valid (S754_finite s m e) = true -> Zpos m < 2 ^ 53.
Proof.
  unfold Number.valid, valid_binary, bounded, canonical_mantissa, fexp.
  intros H. apply andb_prop in H as [H _]. apply Z.eqb_eq in H.
  pose proof (digits2_pos_bound m) as Hm.
  assert (Hd : Zpos (digits2_pos m) <= 53) by (unfold Number.prec in H; lia).
  eapply Z.lt_le_trans; [exact Hm|].
  apply Z.pow_le_mono_r; lia.
Qed.

(** No double is 10^23: its odd part, 5^23, needs 54 bits. *)
Lemma no_double_is_10_pow_23 (x : spec_float) :
  Number.valid x = true -> Number.toBigInt x <> Ok (10 ^ 23).
Proof.
  destruct x as [s|s| |s m e]; unfold Number.toBigInt; try discriminate.
  intros Hv. apply valid_finite_mantissa in Hv.
  destruct (Z.leb_spec 0 e) as [He|He].
  - intros H. apply Ok_inj in H. destruct s; unfold cond_Zopp in H.
    + assert (0 < 2 ^ e) by (apply Z.pow_pos_nonneg; lia).
      change (10 ^ 23) with 100000000000000000000000 in H.
      assert (0 < Zpos m * 2 ^ e) by (apply Z.mul_pos_pos; lia). lia.
    + destruct (Z_le_gt_dec e 23) as [Hle|Hgt].
      * assert (H2 : 2 ^ e <= 2 ^ 23) by (apply Z.pow_le_mono_r; lia).
        assert (0 < 2 ^ e) by (apply Z.pow_pos_nonneg; lia).
        assert (Zpos m * 2 ^ e < 2 ^ 53 * 2 ^ 23) by nia.
        change (2 ^ 53 * 2 ^ 23) with 75557863725914323419136 in *.
        change (10 ^ 23) with 100000000000000000000000 in H. lia.
      * assert (Hmod : (Zpos m * 2 ^ e) mod 2 ^ 24 = 0).
        { replace e with ((e - 24) + 24) by lia.
          rewrite Z.pow_add_r, Z.mul_assoc by lia. apply Z.mod_mul.
          apply Z.pow_nonzero; lia. }
        rewrite H in Hmod. vm_compute in Hmod. discriminate.
  - destruct (Zpos m mod 2 ^ (- e) =? 0); [|discriminate].
    intros H. apply Ok_inj in H. destruct s; unfold cond_Zopp in H.
    + assert (0 <= Zpos m / 2 ^ (- e)) by (apply Z.div_pos; [lia|apply Z.pow_pos_nonneg; lia]).
      change (10 ^ 23) with 100000000000000000000000 in H. lia.
    + assert (Zpos m / 2 ^ (- e) <= Zpos m).
      { apply Z.div_le_upper_bound; [apply Z.pow_pos_nonneg; lia|].
        assert (1 <= 2 ^ (- e)) by (apply (Z.pow_le_mono_r 2 0 (- e)); lia). nia. }
      change (2 ^ 53) with 9007199254740992 in Hv.
      change (10 ^ 23) with 100000000000000000000000 in H. lia.
Qed.

End CombinationCount.

(** C3 (failing input): with a vocabulary of 10 words and 23 missing
    positions the count computed at initialization is
    99999999999999991611392, not 10^23: the power is taken on doubles and
    only then turned into a BigInt, and no double at all equals 10^23. *)
Theorem combinationCount_not_exact :
  computeCombinationCount (recovery_for [] positions_1_to_23 ten_words)
  = Ok 99999999999999991611392
  /\ Z.of_nat (List.length ten_words) ^ Z.of_nat (List.length positions_1_to_23)
     = 100000000000000000000000
  /\ NoDup ten_words
  /\ (forall x : spec_float,
         Number.valid x = true -> Number.toBigInt x <> Ok (10 ^ 23)).
Proof.
  split; [vm_compute; reflexivity|].
  split; [vm_compute; reflexivity|].
  split; [|exact no_double_is_10_pow_23].
  repeat constructor; cbn; intuition discriminate.
Qed.

(** The computation is exact while the power fits a double's significand;
    past the largest double it raises a RangeError. *)
Example combinationCount_bip39_two_missing :
  computeCombinationCount (recovery_for [] [10; 12] (repeat "w" 2048)) = Ok (2048 ^ 2).
Proof. vm_compute. reflexivity. Qed.

Example combinationCount_overflow :
  computeCombinationCount
    (recovery_for [] (repeat 1 94) (repeat "w" 2048))
  = Throw (RangeError "The number cannot be converted to a BigInt because it is not an integer").
Proof. vm_compute. reflexivity. Qed.

(** ** The local well-formedness check *)

Section LocalCheck.

Lemma includes_In (wl : list string) (s : string) :
  includes wl s = true <-> In s wl.
Proof.
  unfold includes. rewrite existsb_exists. split.
  - intros [x [Hin Heq]]. apply String.eqb_eq in Heq. now subst.
  - intros Hin. exists s. split; [exact Hin|apply String.eqb_refl].
Qed.

Lemma includes_js_listed (wl : list string) (w : jsword) :
  includes_js wl w = true <-> listed wl w.
Proof.
  destruct w as [s|]; cbn [includes_js].
  - rewrite includes_In. split.
    + intros H. now exists s.
    + intros [s' [[= <-] H]]. exact H.
  - split; [discriminate|]. intros [s [H _]]. discriminate.
Qed.

Lemma isValidBIP39Phrase_listed (this : Recovery) (seedPhrase : list jsword) :
  isValidBIP39Phrase this seedPhrase = true
  <-> Forall (listed (wordList this)) seedPhrase.
Proof.
  unfold isValidBIP39Phrase. rewrite forallb_forall, Forall_forall.
  split; intros H x Hx; apply includes_js_listed; auto.
Qed.

Lemma splice_insert_Forall {A : Type} (P : A -> Prop) (start : Z) (item : A)
    (arr : list A) :
  P item -> Forall P arr -> Forall P (splice_insert start item arr).
Proof.
  intros Hi Ha. unfold splice_insert. cbv zeta.
  set (k := Z.to_nat _).
  rewrite <- (firstn_skipn k arr) in Ha. apply Forall_app in Ha as [H1 H2].
  apply Forall_app. split; [exact H1|constructor; assumption].
Qed.

Lemma array_get_listed (wl : list string) (d : Z) :
  0 <= d < Z.of_nat (List.length wl) -> listed wl (array_get wl d).
Proof.
  intros Hd. rewrite array_get_digit by exact Hd.
  eexists. split; [reflexivity|]. apply nth_In. lia.
Qed.

(** The loop of [generateCombination] only ever inserts listed words. *)
Lemma forEach_missing_listed (wl : list string) (M idx : Z) (positions : list Z) :
  forall (i : Z) (cand : list jsword),
    0 <= idx -> 0 <= i -> i + Z.of_nat (List.length positions) = M ->
    (positions <> [] -> 0 < Z.of_nat (List.length wl)) ->
    Forall (listed wl) cand ->
    exists c, forEach_missing wl M idx positions i cand = Ok c
              /\ Forall (listed wl) c.
Proof.
  induction positions as [|pos rest IH]; intros i cand Hidx Hi HM HV Hc;
    cbn [forEach_missing].
  - now exists cand.
  - assert (HV' : 0 < Z.of_nat (List.length wl)) by (apply HV; discriminate).
    cbn [List.length] in HM.
    rewrite wordIndexOf_digit by lia. cbn [rbind].
    apply IH; try lia.
    apply splice_insert_Forall; [|exact Hc].
    apply array_get_listed, digitValue_range; lia.
Qed.

Lemma generateCombination_listed (this : Recovery) (idx : Z) :
  Forall (fun w => In w (wordList this)) (knownWords this) ->
  0 <= idx
       < Z.of_nat (List.length (wordList this))
         ^ Z.of_nat (List.length (missingPositions this)) ->
  exists c, generateCombination this idx = Ok c
            /\ Forall (listed (wordList this)) c.
Proof.
  intros Hk Hidx. unfold generateCombination.
  apply forEach_missing_listed; try lia.
  - intros Hne. destruct (wordList this) as [|w wl]; [|cbn; lia].
    destruct (missingPositions this) as [|p ps]; [congruence|].
    cbn [List.length] in Hidx. rewrite Nat2Z.inj_succ in Hidx.
    change (Z.of_nat 0) with 0 in Hidx. rewrite Z.pow_0_l in Hidx by lia. lia.
  - rewrite Forall_forall in *. intros w Hw. apply in_map_iff in Hw as [s [<- Hs]].
    exists s. split; [reflexivity|]. now apply Hk.
Qed.

End LocalCheck.

(** C10: [isValidBIP39Phrase] holds exactly when every word of the
    candidate is in the loaded word list, with no checksum involved; hence
    every candidate [generateCombination] builds from listed known words at
    an index of [0, V^M) passes it. *)
Theorem isValidBIP39Phrase_membership_only :
  (forall (this : Recovery) (seedPhrase : list jsword),
      isValidBIP39Phrase this seedPhrase = true
      <-> Forall (fun w => exists s, w = Some s /\ In s (wordList this)) seedPhrase)
  /\ (forall (this : Recovery) (idx : Z),
         Forall (fun w => In w (wordList this)) (knownWords this) ->
         0 <= idx
              < Z.of_nat (List.length (wordList this))
                ^ Z.of_nat (List.length (missingPositions this)) ->
         exists c, generateCombination this idx = Ok c
                   /\ isValidBIP39Phrase this c = true).
Proof.
  split.
  - intros this seedPhrase. apply isValidBIP39Phrase_listed.
  - intros this idx Hk Hidx.
    destruct (generateCombination_listed this idx Hk Hidx) as [c [Hc Hl]].
    exists c. split; [exact Hc|]. now apply isValidBIP39Phrase_listed.
Qed.

Lemma isValidBIP39Phrase_membership_only_witness :
  exists c,
    generateCombination (recovery_for ["b"; "a"] [2; 4] ["a"; "b"; "c"]) 5 = Ok c
    /\ isValidBIP39Phrase (recovery_for ["b"; "a"] [2; 4] ["a"; "b"; "c"]) c = true.
Proof.
  apply (proj2 isValidBIP39Phrase_membership_only).
  - cbn. repeat apply Forall_cons; try apply Forall_nil; cbn; tauto.
  - cbn. lia.
Defined.

(** ** BigInt to text and back *)

Section BigIntTextRoundTrip.

Ltac each_digit H :=
  cbn in H;
  repeat (destruct H as [H|H]; [subst|]); [..|contradiction].

Lemma string_of_uint_decimal (d : uint) : decimal (NilEmpty.string_of_uint d).
Proof.
  unfold decimal.
  induction d; cbn [NilEmpty.string_of_uint list_ascii_of_string];
    constructor; try assumption; cbn; tauto.
Qed.

Lemma digit_not_whitespace (c : ascii) :
  In c digit_chars -> Str.is_whitespace c = false.
Proof. intros H. each_digit H; reflexivity. Qed.

Lemma trimStart_id (s : string) :
  Forall (fun c => Str.is_whitespace c = false) (list_ascii_of_string s) ->
  Str.trimStart s = s.
Proof.
  destruct s as [|c s]; [reflexivity|]. cbn [list_ascii_of_string Str.trimStart].
  intros H. inversion H as [|? ? Hc _]; subst. now rewrite Hc.
Qed.

Lemma trimEnd_id (s : string) :
  Forall (fun c => Str.is_whitespace c = false) (list_ascii_of_string s) ->
  Str.trimEnd s = s.
Proof.
  induction s as [|c s IH]; [reflexivity|]. cbn [list_ascii_of_string Str.trimEnd].
  intros H. inversion H as [|? ? Hc Hs]; subst.
  rewrite IH by exact Hs. now rewrite Hc.
Qed.

Lemma trim_id (s : string) :
  Forall (fun c => Str.is_whitespace c = false) (list_ascii_of_string s) ->
  Str.trim s = s.
Proof.
  intros H. unfold Str.trim. rewrite trimStart_id by exact H. now apply trimEnd_id.
Qed.

Lemma decimal_not_whitespace (s : string) :
  decimal s ->
  Forall (fun c => Str.is_whitespace c = false) (list_ascii_of_string s).
Proof.
  unfold decimal. intros H. eapply Forall_impl; [|exact H].
  intros c. apply digit_not_whitespace.
Qed.

(** An unsigned decimal text is read in base 10. *)
Lemma parse_decimal (s : string) :
  s <> EmptyString -> decimal s ->
  BigIntText.parse s = BigIntText.parse_digits 10 s 0.
Proof.
  intros Hne Hd. unfold BigIntText.parse.
  rewrite trim_id by now apply decimal_not_whitespace.
  destruct s as [|c1 s]; [congruence|].
  unfold decimal in Hd. cbn [list_ascii_of_string] in Hd.
  inversion Hd as [|? ? H1 Hs]; subst.
  destruct s as [|c2 s].
  - each_digit H1; reflexivity.
  - cbn [list_ascii_of_string] in Hs. inversion Hs as [|? ? H2 _]; subst.
    each_digit H1; try reflexivity.
    each_digit H2; reflexivity.
Qed.

Lemma parse_digits_uint_acc (d : uint) (acc : positive) :
  BigIntText.parse_digits 10 (NilEmpty.string_of_uint d) (Zpos acc)
  = Some (Zpos (Pos.of_uint_acc d acc)).
Proof.
  revert acc. induction d; intros acc;
    cbn [NilEmpty.string_of_uint BigIntText.parse_digits Pos.of_uint_acc];
    try reflexivity;
    match goal with
    | |- context [BigIntText.digit_of_ascii ?c] =>
        change (BigIntText.digit_of_ascii c) with
          (Some (Z.of_nat (nat_of_ascii c) - 48))
    end;
    cbv beta iota;
    match goal with
    | |- (if ?b then _ else _) = _ => change b with true; cbv iota
    end;
    rewrite <- IHd; f_equal;
    match goal with
    | |- context [Z.of_nat (nat_of_ascii ?c)] =>
        let v := eval vm_compute in (Z.of_nat (nat_of_ascii c)) in
        change (Z.of_nat (nat_of_ascii c)) with v
    end; lia.
Qed.

Lemma parse_digits_uint (d : uint) :
  BigIntText.parse_digits 10 (NilEmpty.string_of_uint d) 0
  = Some (Z.of_N (Pos.of_uint d)).
Proof.
  induction d; cbn [NilEmpty.string_of_uint BigIntText.parse_digits Pos.of_uint];
    try reflexivity;
    match goal with
    | |- context [BigIntText.digit_of_ascii ?c] =>
        change (BigIntText.digit_of_ascii c) with
          (Some (Z.of_nat (nat_of_ascii c) - 48))
    end;
    cbv beta iota;
    match goal with
    | |- (if ?b then _ else _) = _ => change b with true; cbv iota
    end;
    first [exact IHd | apply parse_digits_uint_acc].
Qed.

Lemma string_of_uint_nonempty (d : uint) :
  d <> Nil -> NilEmpty.string_of_uint d <> EmptyString.
Proof. destruct d; cbn; congruence. Qed.

Lemma parse_string_of_uint (d : uint) :
  d <> Nil ->
  BigIntText.parse (NilEmpty.string_of_uint d) = Some (Z.of_uint d).
Proof.
  intros Hd.
  rewrite parse_decimal
    by (auto using string_of_uint_nonempty, string_of_uint_decimal).
  apply parse_digits_uint.
Qed.

(** [BigInt(n.toString())] is [n], for every integer [n]. *)
Lemma parse_toString (n : Z) : BigIntText.parse (BigIntText.toString n) = Some n.
Proof.
  unfold BigIntText.toString.
  pose proof (DecimalZ.of_to n) as Hn.
  destruct n as [|p|p]; cbn [Z.to_int] in *.
  - reflexivity.
  - pose proof (DecimalPos.Unsigned.to_uint_nonnil p) as Hp.
    cbn [NilZero.string_of_int]. unfold NilZero.string_of_uint.
    destruct (Pos.to_uint p) eqn:Hu; try congruence;
      rewrite <- Hu in *; rewrite parse_string_of_uint by exact Hp;
      cbn [Z.of_int] in Hn; congruence.
  - pose proof (DecimalPos.Unsigned.to_uint_nonnil p) as Hp.
    cbn [NilZero.string_of_int]. unfold NilZero.string_of_uint.
    assert (Hs : BigIntText.parse (String "-" (NilEmpty.string_of_uint (Pos.to_uint p)))
                 = option_map Z.opp
                     (BigIntText.parse_digits 10
                        (NilEmpty.string_of_uint (Pos.to_uint p)) 0)).
    { unfold BigIntText.parse. rewrite trim_id.
      - pose proof (string_of_uint_nonempty _ Hp) as Hne.
        destruct (NilEmpty.string_of_uint (Pos.to_uint p)); [congruence|reflexivity].
      - cbn [list_ascii_of_string]. constructor; [reflexivity|].
        apply decimal_not_whitespace, string_of_uint_decimal. }
    destruct (Pos.to_uint p) eqn:Hu; try congruence;
      rewrite <- Hu in *; rewrite Hs, parse_digits_uint;
      cbn [Z.of_int option_map] in *; unfold Z.of_uint in Hn; congruence.
Qed.

Lemma ofString_toString (n : Z) :
  BigIntText.ofString (BigIntText.toString n) = Ok n.
Proof. unfold BigIntText.ofString. now rewrite parse_toString. Qed.

End BigIntTextRoundTrip.

(** ** The checkpoint *)

(** C9: saving a checkpoint and loading it back restores [totalAttempts]
    (written as decimal text, whatever its size) to the same integer, and
    [validAttempts], [foundValidPhrases] and [startTime] to the saved
    values.  The three hypotheses say that the write of the save and the
    access and read of the load do not fail. *)
Theorem checkpoint_roundtrip (E : Env) (this that : Recovery) (w : World) :
  io_fails E (1 + ticks w)%nat = false ->
  io_fails E (3 + ticks w)%nat = false ->
  io_fails E (4 + ticks w)%nat = false ->
  exists (w1 w2 : World) (that' : Recovery),
    saveCheckpoint E this w = (Ok tt, w1)
    /\ checkpointFile w1
       = Some (CheckpointJSON
                 {| ck_totalAttempts := BigIntText.toString (totalAttempts this);
                    ck_validAttempts := validAttempts this;
                    ck_foundValidPhrases := foundValidPhrases this;
                    ck_startTime := startTime this;
                    ck_timestamp := clock E (ticks w) |})
    /\ loadCheckpoint E that w1 = (Ok (true, that'), w2)
    /\ totalAttempts that' = totalAttempts this
    /\ validAttempts that' = validAttempts this
    /\ foundValidPhrases that' = foundValidPhrases this
    /\ startTime that' = startTime this.
Proof.
  intros Hwrite Haccess Hread.
  unfold saveCheckpoint, loadCheckpoint, try_catch, bind, Date_now,
    fs_writeFile_checkpoint, fs_access_checkpoint, fs_readFile_checkpoint,
    lift, ret, tick.
  cbn [ticks logFile checkpointFile trace].
  cbn [Nat.add] in Hwrite, Haccess, Hread.
  rewrite Hwrite. cbn [ticks logFile checkpointFile trace].
  do 3 eexists. split; [reflexivity|].
  cbn [ticks logFile checkpointFile trace].
  split; [reflexivity|].
  rewrite Haccess. cbn [ticks logFile checkpointFile trace].
  rewrite Hread. cbn [JSON_parse ck_totalAttempts].
  rewrite ofString_toString.
  split; [reflexivity|].
  cbn. repeat split; reflexivity.
Qed.

Lemma checkpoint_roundtrip_witness :
  exists (w1 w2 : World) (that' : Recovery),
    saveCheckpoint (quiet_env ["a"])
      (set_totalAttempts (recovery_for ["a"] [2] ["a"]) (2 ^ 70)) fresh_world
    = (Ok tt, w1)
    /\ checkpointFile w1
       = Some (CheckpointJSON
                 {| ck_totalAttempts := BigIntText.toString (2 ^ 70);
                    ck_validAttempts := 0;
                    ck_foundValidPhrases := [];
                    ck_startTime := None;
                    ck_timestamp := 0 |})
    /\ loadCheckpoint (quiet_env ["a"]) (recovery_for ["a"] [2] ["a"]) w1
       = (Ok (true, that'), w2)
    /\ totalAttempts that' = 2 ^ 70
    /\ validAttempts that' = 0
    /\ foundValidPhrases that' = []
    /\ startTime that' = None.
Proof.
  apply (checkpoint_roundtrip (quiet_env ["a"])
           (set_totalAttempts (recovery_for ["a"] [2] ["a"]) (2 ^ 70))
           (recovery_for ["a"] [2] ["a"]) fresh_world); reflexivity.
Defined.

(** ** Initialization with unknown words *)

Section FatalConfiguration.

Variable E : Env.

Lemma offenders_spec (known : list string) (word : string) :
  In word (offenders E known)
  <-> In word known /\ ~ In word (wordListPromise E).
Proof.
  unfold offenders. rewrite filter_In, negb_true_iff.
  pose proof (includes_In (wordListPromise E) word) as Hin.
  destruct (includes (wordListPromise E) word); cbn [negb];
    intuition congruence.
Qed.

Lemma initialize_unknown_words (this : Recovery) (w : World) :
  wordListPromise E <> [] ->
  offenders E (knownWords this) <> [] ->
  initialize E this w
  = (Throw (Error ("Invalid words in known words: "
                   ++ join ", " (offenders E (knownWords this)))%string), w).
Proof.
  intros Hwl Hoff. unfold initialize, offenders in *.
  cbn [wordList knownWords set_wordList].
  destruct (wordListPromise E) as [|x wl]; [congruence|].
  cbn [List.length Nat.eqb].
  destruct (filter _ (knownWords this)) as [|o os]; [congruence|].
  reflexivity.
Qed.

(** With no word list at all the run also stops before touching the
    ledger, on the word-list error. *)
Lemma main_empty_word_list (known : list string) (missing : list Z) (w : World) :
  wordListPromise E = [] ->
  main E known missing w
  = (Ok tt,
     emit (ConsoleError "Error in recovery process:"
             (Error "Failed to load word list. Ensure english.txt is present."))
          (tick w)).
Proof.
  intros Hwl. unfold main, new_Recovery, bind, Date_now, ret, try_catch, initialize.
  cbn [wordList set_wordList]. rewrite Hwl. reflexivity.
Qed.

End FatalConfiguration.

(** C8: when some known word is not in the vocabulary, [initialize] throws
    an error that lists the offending words, and the run stops there: the
    only things [main] did are the constructor's clock reading and the
    report of the error, so no index was processed and the ledger was not
    written. *)
Theorem unknown_known_word_aborts
    (E : Env) (known : list string) (missing : list Z) (w : World) :
  wordListPromise E <> [] ->
  (exists word, In word known /\ ~ In word (wordListPromise E)) ->
  (forall word,
      In word (offenders E known)
      <-> In word known /\ ~ In word (wordListPromise E))
  /\ (forall this : Recovery,
         knownWords this = known ->
         initialize E this w
         = (Throw (Error ("Invalid words in known words: "
                          ++ join ", " (offenders E known))%string), w))
  /\ main E known missing w
     = (Ok tt,
        mkWorld (logFile w) (checkpointFile w) (S (ticks w))
          (ConsoleError "Error in recovery process:"
             (Error ("Invalid words in known words: "
                     ++ join ", " (offenders E known))%string)
           :: trace w)).
Proof.
  intros Hwl [word Hword].
  assert (Hoff : offenders E known <> []).
  { apply offenders_spec in Hword. intros Hnil. rewrite Hnil in Hword. exact Hword. }
  split; [apply offenders_spec|]. split.
  - intros this <-. now apply initialize_unknown_words.
  - unfold main, new_Recovery, bind, Date_now, ret, try_catch.
    match goal with
    | |- context [initialize E ?r ?w'] =>
        rewrite (initialize_unknown_words E r w' Hwl Hoff)
    end.
    reflexivity.
Qed.

Lemma unknown_known_word_aborts_witness :
  main (quiet_env ["a"; "b"]) ["zz"; "a"; "q"] [2] fresh_world
  = (Ok tt,
     mkWorld None None 1
       [ConsoleError "Error in recovery process:"
          (Error "Invalid words in known words: zz, q")]).
Proof.
  apply (unknown_known_word_aborts (quiet_env ["a"; "b"]) ["zz"; "a"; "q"] [2]
           fresh_world).
  - discriminate.
  - exists "zz". split; [cbn; tauto|].
    cbn. intros [H|[H|[]]]; discriminate.
Defined.

(** ** The enumeration loop *)

Section DriverFacts.

Variable E : Env.

(** *** Traces *)

Lemma no_validate_app (a b : list event) :
  no_validate (a ++ b) <-> no_validate a /\ no_validate b.
Proof. unfold no_validate. rewrite forallb_app. apply andb_true_iff. Qed.

Lemma no_validate_split (l r : list event) (c : list jsword) :
  ~ no_validate (l ++ Validate c :: r).
Proof.
  rewrite no_validate_app. intros [_ H]. unfold no_validate in H.
  cbn in H. discriminate.
Qed.

Lemma no_validate_attempt_record (idx : Z) (ok : bool) :
  no_validate (attempt_record idx ok).
Proof. destruct ok; reflexivity. Qed.

Lemma rpv_no_validate (this : Recovery) (tr : list event) :
  no_validate tr -> record_precedes_validation this tr.
Proof.
  intros H later c earlier ->. exfalso. exact (no_validate_split _ _ _ H).
Qed.

Lemma rpv_app (this : Recovery) (a b : list event) :
  record_precedes_validation this a ->
  record_precedes_validation this b ->
  record_precedes_validation this (a ++ b).
Proof.
  intros Ha Hb later c earlier Heq.
  apply app_eq_app in Heq as [l [[H1 H2]|[H1 H2]]].
  - destruct l as [|x l].
    + cbn in H2. exact (Hb [] c earlier (eq_sym H2)).
    + cbn in H2. injection H2 as <- ->.
      destruct (Ha later c l H1) as (idx & ok & e' & Hg & ->).
      exists idx, ok, (e' ++ b). split; [exact Hg|now rewrite app_assoc].
  - exact (Hb l c earlier H2).
Qed.

Lemma rpv_one (this : Recovery) (post : list event) (idx : Z) (ok : bool)
    (c : list jsword) :
  no_validate post ->
  generateCombination this idx = Ok c ->
  record_precedes_validation this (post ++ Validate c :: attempt_record idx ok).
Proof.
  intros Hpost Hg. apply rpv_app; [now apply rpv_no_validate|].
  intros later c' earlier Heq.
  destruct later as [|x later].
  - cbn in Heq. injection Heq as <- <-.
    exists idx, ok, []. split; [exact Hg|now rewrite app_nil_r].
  - cbn in Heq. injection Heq as <- Heq. exfalso.
    apply (no_validate_split later earlier c'). rewrite <- Heq.
    apply no_validate_attempt_record.
Qed.

Lemma generateCombination_same_setup (a b : Recovery) (idx : Z) :
  same_setup a b -> generateCombination a idx = generateCombination b idx.
Proof.
  intros (Hk & Hm & Hw & _). unfold generateCombination. now rewrite Hk, Hm, Hw.
Qed.

Lemma rpv_same_setup (a b : Recovery) (tr : list event) :
  same_setup a b ->
  record_precedes_validation a tr -> record_precedes_validation b tr.
Proof.
  intros Hs Ha later c earlier Heq.
  destruct (Ha later c earlier Heq) as (idx & ok & e' & Hg & He).
  exists idx, ok, e'. split; [|exact He].
  now rewrite <- (generateCombination_same_setup a b idx Hs).
Qed.

Lemma same_setup_refl (a : Recovery) : same_setup a a.
Proof. repeat split. Qed.

Lemma same_setup_trans (a b c : Recovery) :
  same_setup a b -> same_setup b c -> same_setup a c.
Proof. unfold same_setup. intuition congruence. Qed.

(** *** [generateCombination] does not throw once a word list is loaded *)

Lemma wordIndexOf_total (V M idx i : Z) :
  V <> 0 -> i < M -> exists d, wordIndexOf V M idx i = Ok d.
Proof.
  intros HV Hi. unfold wordIndexOf, BigInt.pow, BigInt.div, BigInt.rem.
  destruct (Z.ltb_spec (M - 1 - i) 0); [lia|]. cbn [rbind].
  destruct (Z.eqb_spec (V ^ (M - 1 - i)) 0) as [H0|H0].
  - exfalso. revert H0. apply Z.pow_nonzero; lia.
  - cbn [rbind]. destruct (Z.eqb_spec V 0); [contradiction|]. eauto.
Qed.

Lemma forEach_missing_total (wl : list string) (M idx : Z) (positions : list Z) :
  wl <> [] ->
  forall (i : Z) (cand : list jsword),
    i + Z.of_nat (List.length positions) = M ->
    exists c, forEach_missing wl M idx positions i cand = Ok c.
Proof.
  intros Hwl. induction positions as [|pos rest IH]; intros i cand HM;
    cbn [forEach_missing].
  - eauto.
  - cbn [List.length] in HM.
    destruct (wordIndexOf_total (Z.of_nat (List.length wl)) M idx i) as [d Hd].
    + destruct wl; [congruence|cbn; lia].
    + lia.
    + rewrite Hd. cbn [rbind]. apply IH. lia.
Qed.

Lemma generateCombination_total (this : Recovery) (idx : Z) :
  wordList this <> [] -> exists c, generateCombination this idx = Ok c.
Proof.
  intros Hwl. unfold generateCombination.
  apply forEach_missing_total; [exact Hwl|lia].
Qed.

(** *** What each operation does *)

Lemma saveCheckpoint_run (this : Recovery) (w : World) :
  exists w' new,
    saveCheckpoint E this w = (Ok tt, w')
    /\ trace w' = new ++ trace w
    /\ no_validate new
    /\ logFile w' = logFile w.
Proof.
  unfold saveCheckpoint, try_catch, bind, Date_now, fs_writeFile_checkpoint,
    console_error, ret, tick, emit.
  cbn [ticks logFile checkpointFile trace].
  destruct (io_fails E (S (ticks w))).
  - eexists. eexists (_ :: _ :: []). repeat split.
  - eexists. eexists (_ :: []). repeat split.
Qed.

Lemma logAttemptedCombination_run (this : Recovery) (idx : Z) (w : World) :
  exists this' w',
    logAttemptedCombination E this idx w = (Ok this', w')
    /\ trace w' = attempt_record idx (negb (io_fails E (ticks w))) ++ trace w
    /\ this' = (if io_fails E (ticks w) then this
                else set_attemptedCombinations this
                       (Set_add idx (attemptedCombinations this)))
    /\ (io_fails E (ticks w) = false ->
        logFile w'
        = Some (match logFile w with
                | Some old => old ++ BigIntText.toString idx ++ nl
                | None => BigIntText.toString idx ++ nl
                end)%string).
Proof.
  unfold logAttemptedCombination, try_catch, bind, fs_appendFile_log,
    console_error, ret, tick, emit.
  destruct (io_fails E (ticks w)); cbn [negb attempt_record app];
    do 2 eexists; repeat split; try reflexivity; discriminate.
Qed.

Lemma validateSeedPhrase_run (this : Recovery) (c : list jsword) (w : World) :
  exists b w',
    validateSeedPhrase E this c w = (Ok b, w')
    /\ trace w' = Validate c :: trace w
    /\ ((forall address,
            Wallet_fromPhrase E (join_js " " c) = Some address ->
            balanceOf E (ticks w) address = None) ->
        b = false).
Proof.
  unfold validateSeedPhrase, try_catch, bind, Wallet_address,
    usdtContract_balanceOf, ret, tick, emit.
  cbn [ticks logFile checkpointFile trace].
  destruct (negb (isValidBIP39Phrase this c)).
  - do 2 eexists. repeat split.
  - destruct (Wallet_fromPhrase E (join_js " " c)) as [address|].
    + destruct (usdtContract this).
      * cbn [ticks logFile checkpointFile trace].
        destruct (balanceOf E (ticks w) address) as [balance|] eqn:Hb.
        -- do 2 eexists. split; [reflexivity|]. split; [reflexivity|].
           intros H. specialize (H address eq_refl). congruence.
        -- do 2 eexists. repeat split.
      * do 2 eexists. repeat split.
    + do 2 eexists. repeat split.
Qed.

Lemma logSeedPhraseAttempt_run (this : Recovery) (c : list jsword) (w : World) :
  exists this' w' new,
    logSeedPhraseAttempt E this c true w = (Ok this', w')
    /\ trace w' = new ++ trace w
    /\ no_validate new
    /\ same_setup this' this
    /\ totalAttempts this' = totalAttempts this
    /\ lastCheckpointTime this' = lastCheckpointTime this.
Proof.
  unfold logSeedPhraseAttempt, try_catch, bind, Date_now, fs_appendFile_log,
    console_error, ret, tick, emit.
  cbn [ticks logFile checkpointFile trace].
  destruct (io_fails E (S (ticks w))).
  - eexists. eexists. eexists (_ :: _ :: []). repeat split.
  - eexists. eexists. eexists (_ :: []). repeat split.
Qed.

(** *** One turn of the loop *)

Lemma loop_body_run (this : Recovery) (idx : Z) (w : World) :
  wordList this <> [] ->
  exists this' w' new,
    loop_body E this idx w = (Ok this', w')
    /\ trace w' = new ++ trace w
    /\ same_setup this' this
    /\ totalAttempts this' = idx + 1
    /\ record_precedes_validation this new
    /\ (oracle_down E ->
        validAttempts this' = validAttempts this
        /\ foundValidPhrases this' = foundValidPhrases this).
Proof.
  intros Hwl. unfold loop_body.
  destruct (Set_has (attemptedCombinations this) idx).
  { exists (set_totalAttempts this (idx + 1)), w, [].
    repeat split. now apply rpv_no_validate. }
  set (this0 := set_totalAttempts this (idx + 1)).
  assert (Hs0 : same_setup this0 this) by (repeat split).
  destruct (generateCombination_total this0 idx Hwl) as [c Hc].
  assert (Hc' : generateCombination this idx = Ok c)
    by (now rewrite <- (generateCombination_same_setup this0 this idx Hs0)).
  unfold bind at 1. unfold lift at 1. rewrite Hc.
  destruct (logAttemptedCombination_run this0 idx w)
    as (this1 & w1 & Hlog & Htr1 & Hthis1 & _).
  unfold bind at 1. rewrite Hlog.
  assert (Hf1 : same_setup this1 this
                /\ totalAttempts this1 = idx + 1
                /\ validAttempts this1 = validAttempts this
                /\ foundValidPhrases this1 = foundValidPhrases this).
  { rewrite Hthis1. destruct (io_fails E (ticks w)); repeat split. }
  destruct Hf1 as (Hs1 & Ht1 & Hv1 & Hfd1). clear Hthis1.
  destruct (validateSeedPhrase_run this1 c w1) as (b & w2 & Hval & Htr2 & Hdown).
  unfold bind at 1. rewrite Hval.
  (* the match is logged, or nothing happens *)
  assert (Hmatch :
            exists this3 w3 post3,
              (if b then logSeedPhraseAttempt E this1 c b else ret this1) w2
              = (Ok this3, w3)
              /\ trace w3 = post3 ++ trace w2
              /\ no_validate post3
              /\ same_setup this3 this
              /\ totalAttempts this3 = idx + 1
              /\ (b = false -> this3 = this1)).
  { destruct b.
    - destruct (logSeedPhraseAttempt_run this1 c w2)
        as (this3 & w3 & post3 & H3 & Htr3 & Hnv3 & Hs3 & Ht3 & _).
      exists this3, w3, post3. repeat split; try assumption; try congruence.
      + destruct Hs3 as (? & ? & ? & ?), Hs1 as (? & ? & ? & ?); congruence.
      + destruct Hs3 as (? & ? & ? & ?), Hs1 as (? & ? & ? & ?); congruence.
      + destruct Hs3 as (? & ? & ? & ?), Hs1 as (? & ? & ? & ?); congruence.
      + destruct Hs3 as (? & ? & ? & ?), Hs1 as (? & ? & ? & ?); congruence.
    - exists this1, w2, []. repeat split; try apply Hs1; assumption. }
  destruct Hmatch as (this3 & w3 & post3 & H3 & Htr3 & Hnv3 & Hs3 & Ht3 & Hsame3).
  unfold bind at 1. rewrite H3.
  (* the progress line *)
  assert (Hprog :
            exists w4,
              (if Z.rem (totalAttempts this3) LOGGING_INTERVAL =? 0
               then bind (Date_now E) (fun _ => ret tt) else ret tt) w3
              = (Ok tt, w4)
              /\ trace w4 = trace w3).
  { destruct (Z.rem (totalAttempts this3) LOGGING_INTERVAL =? 0);
      eexists; split; reflexivity. }
  destruct Hprog as (w4 & H4 & Htr4).
  unfold bind at 1. rewrite H4.
  unfold bind at 1. unfold Date_now at 1.
  assert (Hend : forall post5 this5,
             same_setup this5 this -> totalAttempts this5 = idx + 1 ->
             validAttempts this5 = validAttempts this3 ->
             foundValidPhrases this5 = foundValidPhrases this3 ->
             no_validate post5 ->
             same_setup this5 this
             /\ totalAttempts this5 = idx + 1
             /\ record_precedes_validation this
                  ((post5 ++ post3) ++ Validate c
                   :: attempt_record idx (negb (io_fails E (ticks w))))
             /\ (oracle_down E ->
                 validAttempts this5 = validAttempts this
                 /\ foundValidPhrases this5 = foundValidPhrases this)).
  { intros post5 this5 Hs5 Ht5 Hv5 Hfd5 Hnv5.
    split; [exact Hs5|]. split; [exact Ht5|]. split.
    - apply rpv_one; [|exact Hc']. apply no_validate_app. now split.
    - intros Hd. rewrite Hv5, Hfd5. rewrite Hsame3; [now split|].
      apply Hdown. intros address _. apply Hd. }
  destruct (CHECKPOINT_INTERVAL <=? clock E (ticks w4) - lastCheckpointTime this3).
  - destruct (saveCheckpoint_run this3 (tick w4)) as (w5 & post5 & H5 & Htr5 & Hnv5 & _).
    unfold bind at 1. rewrite H5.
    exists (set_lastCheckpointTime this3 (clock E (ticks w4))), w5.
    exists ((post5 ++ post3) ++ Validate c :: attempt_record idx (negb (io_fails E (ticks w)))).
    split; [reflexivity|]. split.
    { rewrite Htr5. cbn [tick trace]. rewrite Htr4, Htr3, Htr2, Htr1.
      rewrite <- !app_assoc. reflexivity. }
    apply Hend; try assumption; try reflexivity.
  - exists this3, (tick w4).
    exists (([] ++ post3) ++ Validate c :: attempt_record idx (negb (io_fails E (ticks w)))).
    split; [reflexivity|]. split.
    { cbn [tick trace app]. rewrite Htr4, Htr3, Htr2, Htr1.
      rewrite <- !app_assoc. reflexivity. }
    apply Hend; try assumption; reflexivity.
Qed.

(** *** The loop *)

Lemma loop_bound_same_setup (a b : Recovery) :
  same_setup a b -> loop_bound a = loop_bound b.
Proof. intros (_ & _ & _ & Hc). unfold loop_bound. now rewrite Hc. Qed.

Lemma wordList_same_setup (a b : Recovery) :
  same_setup a b -> wordList a = wordList b.
Proof. now intros (_ & _ & Hw & _). Qed.

Lemma enumerate_run (turns : nat) :
  forall (idx : Z) (this : Recovery) (w : World),
    wordList this <> [] ->
    exists this' w' new,
      enumerate E turns idx this w = (Ok this', w')
      /\ trace w' = new ++ trace w
      /\ same_setup this' this
      /\ record_precedes_validation this new
      /\ (oracle_down E ->
          validAttempts this' = validAttempts this
          /\ foundValidPhrases this' = foundValidPhrases this)
      /\ ((Z.to_nat (loop_bound this - idx) <= turns)%nat ->
          totalAttempts this'
          = if idx <? loop_bound this then loop_bound this else totalAttempts this).
Proof.
  induction turns as [|turns IH]; intros idx this w Hwl; cbn [enumerate].
  - exists this, w, []. split; [reflexivity|]. split; [reflexivity|].
    split; [apply same_setup_refl|]. split; [now apply rpv_no_validate|].
    split; [now split|]. intros Hn.
    destruct (Z.ltb_spec idx (loop_bound this)); [lia|reflexivity].
  - destruct (Z.ltb_spec idx (loop_bound this)) as [Hlt|Hge].
    + destruct (loop_body_run this idx w Hwl)
        as (this1 & w1 & new1 & H1 & Htr1 & Hs1 & Ht1 & Hr1 & Hd1).
      assert (Hwl1 : wordList this1 <> [])
        by (now rewrite (wordList_same_setup _ _ Hs1)).
      destruct (IH (idx + 1) this1 w1 Hwl1)
        as (this2 & w2 & new2 & H2 & Htr2 & Hs2 & Hr2 & Hd2 & Ht2).
      unfold bind. rewrite H1.
      exists this2, w2, (new2 ++ new1).
      split; [exact H2|].
      split; [now rewrite Htr2, Htr1, app_assoc|].
      split; [now apply same_setup_trans with this1|].
      split; [apply rpv_app; [now apply rpv_same_setup with this1|exact Hr1]|].
      split.
      * intros Hd. destruct (Hd1 Hd) as [Hv1 Hf1], (Hd2 Hd) as [Hv2 Hf2].
        split; congruence.
      * intros Hn. rewrite (loop_bound_same_setup _ _ Hs1) in Ht2.
        rewrite Ht2 by lia. rewrite Ht1.
        destruct (Z.ltb_spec (idx + 1) (loop_bound this)); lia.
    + exists this, w, []. split; [reflexivity|]. split; [reflexivity|].
      split; [apply same_setup_refl|]. split; [now apply rpv_no_validate|].
      split; [now split|]. intros _. reflexivity.
Qed.

(** Past the number of turns the loop needs, more turns change nothing:
    [turns_left] is the whole loop. *)
Lemma enumerate_enough_turns (turns : nat) :
  forall (idx : Z) (this : Recovery) (w : World),
    wordList this <> [] ->
    (Z.to_nat (loop_bound this - idx) <= turns)%nat ->
    enumerate E turns idx this w
    = enumerate E (Z.to_nat (loop_bound this - idx)) idx this w.
Proof.
  induction turns as [|turns IH]; intros idx this w Hwl Hn.
  - replace (Z.to_nat (loop_bound this - idx)) with 0%nat by lia. reflexivity.
  - destruct (Z.ltb_spec idx (loop_bound this)) as [Hlt|Hge].
    + replace (Z.to_nat (loop_bound this - idx))
        with (S (Z.to_nat (loop_bound this - (idx + 1)))) by lia.
      cbn [enumerate].
      destruct (Z.ltb_spec idx (loop_bound this)); [|lia].
      destruct (loop_body_run this idx w Hwl)
        as (this1 & w1 & new1 & H1 & _ & Hs1 & _).
      unfold bind. rewrite H1.
      rewrite <- (loop_bound_same_setup _ _ Hs1).
      apply IH.
      * now rewrite (wordList_same_setup _ _ Hs1).
      * rewrite (loop_bound_same_setup _ _ Hs1). lia.
    + replace (Z.to_nat (loop_bound this - idx)) with 0%nat by lia.
      cbn [enumerate]. destruct (Z.ltb_spec idx (loop_bound this)); [lia|reflexivity].
Qed.

(** *** Around the loop *)

Lemma prepareLogFile_run (this : Recovery) (w : World) :
  exists w' new,
    prepareLogFile E this w = (Ok tt, w')
    /\ trace w' = new ++ trace w
    /\ no_validate new.
Proof.
  unfold prepareLogFile, try_catch, bind, Date_now, lift, fs_writeFile_log,
    console_error, ret, tick, emit.
  cbn [ticks logFile checkpointFile trace].
  destruct (logHeader E this (clock E (ticks w))) as [header|e].
  - cbn [ticks logFile checkpointFile trace].
    destruct (io_fails E (S (ticks w))).
    + eexists. eexists (_ :: _ :: []). repeat split.
    + eexists. eexists (_ :: []). repeat split.
  - eexists. eexists (_ :: []). repeat split.
Qed.

Lemma loadAttemptedCombinations_run (this : Recovery) (w : World) :
  exists this' w' new,
    loadAttemptedCombinations E this w = (Ok this', w')
    /\ trace w' = new ++ trace w
    /\ no_validate new
    /\ same_setup this' this
    /\ totalAttempts this' = totalAttempts this
    /\ validAttempts this' = validAttempts this
    /\ foundValidPhrases this' = foundValidPhrases this.
Proof.
  unfold loadAttemptedCombinations, try_catch, bind, fs_readFile_log, lift,
    console_error, ret, tick, emit.
  destruct (io_fails E (ticks w)).
  { do 2 eexists. eexists (_ :: []). repeat split. }
  destruct (logFile w) as [content|].
  2:{ do 2 eexists. eexists (_ :: []). repeat split. }
  destruct (nth_error (Str.split ATTEMPTED_START content) 1) as [section|].
  2:{ do 2 eexists. exists []. repeat split. }
  destruct (String.eqb section "").
  { do 2 eexists. exists []. repeat split. }
  destruct (map_result _ _) as [lines|e].
  - do 2 eexists. exists []. repeat split.
  - do 2 eexists. eexists (_ :: []). repeat split.
Qed.

Lemma findValidSeedPhrases_run (this : Recovery) (w : World) :
  wordList this <> [] ->
  exists this' w' new,
    findValidSeedPhrases E this w = (Ok this', w')
    /\ trace w' = new ++ trace w
    /\ same_setup this' this
    /\ record_precedes_validation this new
    /\ (oracle_down E ->
        validAttempts this' = validAttempts this
        /\ foundValidPhrases this' = foundValidPhrases this)
    /\ totalAttempts this'
       = if totalAttempts this <? loop_bound this
         then loop_bound this else totalAttempts this.
Proof.
  intros Hwl. unfold findValidSeedPhrases.
  destruct (wordList this) as [|x wl] eqn:Hw; [congruence|].
  cbn [List.length Nat.eqb]. rewrite <- Hw in *. clear Hw x wl.
  destruct (prepareLogFile_run this w) as (w1 & new1 & H1 & Htr1 & Hn1).
  unfold bind at 1. rewrite H1.
  destruct (loadAttemptedCombinations_run this w1)
    as (this2 & w2 & new2 & H2 & Htr2 & Hn2 & Hs2 & Ht2 & Hv2 & Hf2).
  unfold bind at 1. rewrite H2.
  assert (Hwl2 : wordList this2 <> [])
    by (now rewrite (wordList_same_setup _ _ Hs2)).
  destruct (enumerate_run (turns_left this2) (totalAttempts this2) this2 w2 Hwl2)
    as (this3 & w3 & new3 & H3 & Htr3 & Hs3 & Hr3 & Hd3 & Ht3).
  unfold bind at 1. rewrite H3.
  destruct (saveCheckpoint_run this3 w3) as (w4 & new4 & H4 & Htr4 & Hn4 & _).
  unfold bind at 1. rewrite H4.
  exists this3, w4, (new4 ++ new3 ++ new2 ++ new1).
  split; [reflexivity|].
  split; [now rewrite Htr4, Htr3, Htr2, Htr1, <- !app_assoc|].
  split; [now apply same_setup_trans with this2|].
  split.
  { apply rpv_app; [now apply rpv_no_validate|].
    apply rpv_app; [now apply rpv_same_setup with this2|].
    apply rpv_no_validate, no_validate_app. now split. }
  split.
  { intros Hd. destruct (Hd3 Hd). split; congruence. }
  rewrite Ht3 by (unfold turns_left; lia).
  now rewrite (loop_bound_same_setup _ _ Hs2), Ht2.
Qed.

End DriverFacts.

(** ** Recording before validating *)





(** ** Oracle failures *)



(** ** Restarting *)

(** C6 (failing input): three words, one missing position.  The first run
    saves a checkpoint after index 0 and is killed after index 1, leaving
    indices 0 and 1 in the ledger.  The second run overwrites the ledger
    with a fresh header, resumes from the checkpoint at index 1, and ends
    with a ledger of indices 1 and 2 only, having validated the candidate
    of index 1 a second time. *)
Theorem restart_forgets_ledger :
  let E := clock_jump_env ["a"; "b"; "c"] in
  let w1 := snd (main_killed E 2 [] [1] fresh_world) in
  let w2 := snd (main E [] [1] w1) in
  option_map ledger_indices (logFile w1) = Some [0; 1]
  /\ checkpointFile w1
     = Some (CheckpointJSON (mkCheckpoint "1" 0 [] (Some 0) 300009))
  /\ validated (trace w1) = [[Some "a"]; [Some "b"]]
  /\ option_map ledger_indices (logFile w2) = Some [1; 2]
  /\ validated (trace w2) = [[Some "a"]; [Some "b"]; [Some "b"]; [Some "c"]].
Proof. vm_compute. repeat split; reflexivity. Qed.

(** The same defect without any checkpoint: killed after index 0 and
    restarted, the run starts over and validates index 0 again. *)
Example restart_without_checkpoint :
  let E := quiet_env ["a"; "b"] in
  let w1 := snd (main_killed E 1 [] [1] fresh_world) in
  let w2 := snd (main E [] [1] w1) in
  option_map ledger_indices (logFile w1) = Some [0]
  /\ checkpointFile w1 = None
  /\ validated (trace w2) = [[Some "a"]; [Some "a"]; [Some "b"]].
Proof. vm_compute. repeat split; reflexivity. Qed.

(** ** A ledger from another search *)

(** C7 (as stated, refuted): the ledger on disk was written for another
    search (three words, other known words, indices 0 and 1 attempted).
    The run raises no error, reports none, and validates both candidates
    of the current search. *)
Lemma stale_header_not_rejected :
  ledger_indices stale_ledger = [0; 1]
  /\ fst (main (quiet_env ["a"; "b"]) [] [1] stale_world) = Ok tt
  /\ existsb is_ConsoleError
       (trace (snd (main (quiet_env ["a"; "b"]) [] [1] stale_world))) = false
  /\ validated (trace (snd (main (quiet_env ["a"; "b"]) [] [1] stale_world)))
     = [[Some "a"]; [Some "b"]].
Proof. vm_compute. repeat split; reflexivity. Qed.

(* ================================================================== *)
(** * Further properties of the encoder *)

Section EncoderShape.

Lemma splice_insert_length {A : Type} (start : Z) (item : A) (arr : list A) :
  List.length (splice_insert start item arr) = S (List.length arr).
Proof.
  unfold splice_insert. cbv zeta. set (k := Z.to_nat _).
  rewrite length_app. cbn [List.length].
  rewrite <- (firstn_skipn k arr) at 3. rewrite length_app. lia.
Qed.

Lemma forEach_missing_length (wl : list string) (M idx : Z) (positions : list Z) :
  forall (i : Z) (cand c : list jsword),
    forEach_missing wl M idx positions i cand = Ok c ->
    List.length c = (List.length cand + List.length positions)%nat.
Proof.
  induction positions as [|pos rest IH]; intros i cand c; cbn [forEach_missing].
  - intros H. apply Ok_inj in H. subst. cbn. lia.
  - destruct (wordIndexOf _ M idx i) as [d|e]; cbn [rbind]; [|discriminate].
    intros H. apply IH in H. rewrite splice_insert_length in H.
    cbn [List.length]. lia.
Qed.

(** Two runs of the loop agree when the word indices agree at every
    position still to visit. *)
Lemma forEach_missing_ext (wl : list string) (M idx idx' : Z) (positions : list Z) :
  forall (i : Z) (cand : list jsword),
    (forall j, i <= j < i + Z.of_nat (List.length positions) ->
       wordIndexOf (Z.of_nat (List.length wl)) M idx j
       = wordIndexOf (Z.of_nat (List.length wl)) M idx' j) ->
    forEach_missing wl M idx positions i cand
    = forEach_missing wl M idx' positions i cand.
Proof.
  induction positions as [|pos rest IH]; intros i cand Hj; cbn [forEach_missing].
  - reflexivity.
  - cbn [List.length] in Hj. rewrite (Hj i) by lia.
    destruct (wordIndexOf _ M idx' i) as [d|e]; cbn [rbind]; [|reflexivity].
    apply IH. intros j Hr. apply Hj. lia.
Qed.

Lemma digitValue_mod_space (V M idx i : Z) :
  0 < V -> 0 <= i < M ->
  Spec.digitValue V M (idx mod V ^ M) i = Spec.digitValue V M idx i.
Proof.
  intros HV Hi. unfold Spec.digitValue.
  set (e := M - 1 - i).
  assert (He : 0 <= e) by (unfold e; lia).
  assert (Hpe : 0 < V ^ e) by (apply Z.pow_pos_nonneg; lia).
  assert (HM : V ^ M = V ^ e * (V ^ i * V)).
  { replace M with (e + (i + 1)) by (unfold e; lia).
    rewrite Z.pow_add_r, (Z.pow_add_r V i 1), Z.pow_1_r by lia. reflexivity. }
  rewrite (Z.div_mod idx (V ^ M)) at 2 by (rewrite HM; nia).
  rewrite HM at 2.
  replace (V ^ e * (V ^ i * V) * (idx / V ^ M) + idx mod V ^ M)
    with (idx mod V ^ M + (idx / V ^ M * V ^ i * V) * V ^ e) by ring.
  rewrite Z.div_add by lia.
  replace (idx / V ^ M * V ^ i * V) with ((idx / V ^ M * V ^ i) * V) by ring.
  rewrite Z.mod_add by lia. reflexivity.
Qed.

End EncoderShape.

(** X1: on an object with a loaded word list, [generateCombination]
    returns, whatever the index and the positions, a candidate with one
    slot per known word and one per missing position. *)
Theorem generateCombination_length (this : Recovery) (idx : Z) :
  wordList this <> [] ->
  exists c,
    generateCombination this idx = Ok c
    /\ List.length c
       = (List.length (knownWords this) + List.length (missingPositions this))%nat.
Proof.
  intros Hwl. destruct (generateCombination_total this idx Hwl) as [c Hc].
  exists c. split; [exact Hc|].
  unfold generateCombination in Hc. apply forEach_missing_length in Hc.
  now rewrite length_map in Hc.
Qed.

Lemma generateCombination_length_witness :
  exists c,
    generateCombination (recovery_for ["x"; "y"] [7; 0; 2] ["a"; "b"]) (-5) = Ok c
    /\ List.length c = 5%nat.
Proof.
  apply (generateCombination_length (recovery_for ["x"; "y"] [7; 0; 2] ["a"; "b"]) (-5)).
  cbn. discriminate.
Defined.

(** X2: without a word list, [generateCombination] throws the RangeError
    of a BigInt division by zero as soon as a position is missing, and
    returns the known words unchanged when none is. *)
Theorem generateCombination_without_word_list (this : Recovery) (idx : Z) :
  wordList this = [] ->
  generateCombination this idx
  = match missingPositions this with
    | [] => Ok (map Some (knownWords this))
    | _ :: _ => Throw (RangeError "Division by zero")
    end.
Proof.
  intros Hwl. unfold generateCombination. rewrite Hwl.
  destruct (missingPositions this) as [|pos rest]; [reflexivity|].
  set (M := Z.of_nat (List.length (pos :: rest))).
  assert (HM : 1 <= M) by (unfold M; cbn [List.length]; lia).
  cbn [forEach_missing]. change (Z.of_nat (List.length (@nil string))) with 0.
  unfold wordIndexOf, BigInt.pow, BigInt.div, BigInt.rem.
  destruct (Z.ltb_spec (M - 1 - 0) 0); [lia|].
  cbn [rbind].
  destruct (0 ^ (M - 1 - 0) =? 0); reflexivity.
Qed.

Lemma generateCombination_without_word_list_witness :
  generateCombination (recovery_for ["x"; "y"] [2] []) 0
  = Throw (RangeError "Division by zero").
Proof.
  apply (generateCombination_without_word_list (recovery_for ["x"; "y"] [2] []) 0).
  reflexivity.
Defined.

(** X3: beyond the search space the encoder wraps around: a non-negative
    index and its remainder modulo [V^M] give the same candidate. *)
Theorem generateCombination_wraps (this : Recovery) (idx : Z) :
  wordList this <> [] ->
  0 <= idx ->
  generateCombination this idx
  = generateCombination this
      (idx mod Z.of_nat (List.length (wordList this))
                 ^ Z.of_nat (List.length (missingPositions this))).
Proof.
  intros Hwl Hidx. unfold generateCombination.
  set (V := Z.of_nat (List.length (wordList this))).
  set (M := Z.of_nat (List.length (missingPositions this))).
  assert (HV : 0 < V) by (unfold V; destruct (wordList this); [congruence|cbn; lia]).
  apply forEach_missing_ext. intros j Hj. fold V.
  assert (Hm : 0 <= idx mod V ^ M).
  { apply Z.mod_pos_bound. apply Z.pow_pos_nonneg; unfold M; lia. }
  assert (Hj' : 0 <= j < M) by (unfold M; lia).
  rewrite (wordIndexOf_digit V M idx j) by lia.
  rewrite (wordIndexOf_digit V M (idx mod V ^ M) j) by lia.
  f_equal. symmetry. apply digitValue_mod_space; lia.
Qed.

Lemma generateCombination_wraps_witness :
  generateCombination (recovery_of_template ["a"; "b"; "c"] example_template) 13
  = generateCombination (recovery_of_template ["a"; "b"; "c"] example_template)
      (13 mod Z.of_nat 3 ^ Z.of_nat 2).
Proof.
  apply (generateCombination_wraps
           (recovery_of_template ["a"; "b"; "c"] example_template) 13).
  - cbn. discriminate.
  - lia.
Defined.

(** ** Every filling of the template has an index *)

Section Coverage.

Variable V : Z.
Hypothesis V_pos : 0 < V.

Lemma index_of_digits_snoc (ds : list Z) (d : Z) :
  index_of_digits V (ds ++ [d]) = index_of_digits V ds * V + d.
Proof. unfold index_of_digits. now rewrite fold_left_app. Qed.

Lemma index_of_digits_range (ds : list Z) :
  Forall (fun d => 0 <= d < V) ds ->
  0 <= index_of_digits V ds < V ^ Z.of_nat (List.length ds).
Proof.
  induction ds as [|d ds IH] using rev_ind; intros Hds.
  - cbn. lia.
  - apply Forall_app in Hds as [Hds Hd]. inversion Hd as [|? ? Hd' _]; subst.
    specialize (IH Hds). rewrite index_of_digits_snoc, length_app.
    cbn [List.length]. rewrite Nat2Z.inj_add, Z.pow_add_r, Z.pow_1_r by lia.
    nia.
Qed.

(** The digits of [index_of_digits ds] are [ds]. *)
Lemma digitValue_index_of_digits (ds : list Z) :
  Forall (fun d => 0 <= d < V) ds ->
  forall i : nat,
    (i < List.length ds)%nat ->
    Spec.digitValue V (Z.of_nat (List.length ds)) (index_of_digits V ds) (Z.of_nat i)
    = nth i ds 0.
Proof.
  induction ds as [|d ds IH] using rev_ind; intros Hds i Hi.
  - cbn in Hi. lia.
  - apply Forall_app in Hds as [Hds Hd]. inversion Hd as [|? ? Hd' _]; subst.
    rewrite length_app in *. cbn [List.length] in *.
    rewrite index_of_digits_snoc. unfold Spec.digitValue.
    destruct (Nat.eq_dec i (List.length ds)) as [->|Hne].
    + replace (Z.of_nat (List.length ds + 1) - 1 - Z.of_nat (List.length ds))
        with 0 by lia.
      rewrite Z.pow_0_r, Z.div_1_r, Z.add_comm, Z.mod_add by lia.
      rewrite app_nth2, Nat.sub_diag by lia. cbn [nth].
      apply Z.mod_small. lia.
    + assert (Hlt : (i < List.length ds)%nat) by lia.
      rewrite app_nth1 by lia. rewrite <- (IH Hds i Hlt). unfold Spec.digitValue.
      replace (Z.of_nat (List.length ds + 1) - 1 - Z.of_nat i)
        with (Z.succ (Z.of_nat (List.length ds) - 1 - Z.of_nat i)) by lia.
      rewrite Z.pow_succ_r by lia.
      rewrite <- Z.div_div by (try lia; apply Z.pow_pos_nonneg; lia).
      rewrite Z.add_comm, Z.div_add by lia.
      rewrite (Z.div_small d V) by lia. reflexivity.
Qed.

End Coverage.

Section CoverageOfTemplates.

(** Filling by the digits of an index and filling by words agree when
    the words are the ones the digits select. *)
Lemma fill_fill_words (wl : list string) (M idx : Z) (t : Spec.template) :
  forall (i : Z) (ws : list string),
    Spec.freeCount t <= Z.of_nat (List.length ws) ->
    (forall k : nat,
        (k < List.length ws)%nat ->
        nth (Z.to_nat (Spec.digitValue (Z.of_nat (List.length wl)) M idx
                         (i + Z.of_nat k))) wl ""
        = nth k ws "") ->
    Spec.fill wl M idx t i = fill_words t ws.
Proof.
  induction t as [|[w|] t IH]; intros i ws Hlen Hk;
    cbn [Spec.fill fill_words Spec.freeCount] in *.
  - reflexivity.
  - f_equal. now apply IH.
  - pose proof (freeCount_nonneg t) as Hf.
    destruct ws as [|w ws]; [cbn [List.length Z.of_nat] in Hlen; lia|].
    f_equal.
    + specialize (Hk 0%nat). cbn [List.length nth] in Hk.
      rewrite Z.add_0_r in Hk. apply Hk. lia.
    + apply IH.
      * cbn [List.length] in Hlen. lia.
      * intros k Hlt. specialize (Hk (S k)). cbn [List.length nth] in Hk.
        replace (i + 1 + Z.of_nat k) with (i + Z.of_nat (S k)) by lia.
        apply Hk. lia.
Qed.

(** Words of the list are selected by digits below its length. *)
Lemma digits_of_words (wl ws : list string) :
  Forall (fun w => In w wl) ws ->
  exists ds,
    List.length ds = List.length ws
    /\ Forall (fun d => 0 <= d < Z.of_nat (List.length wl)) ds
    /\ forall k : nat,
         (k < List.length ws)%nat ->
         nth (Z.to_nat (nth k ds 0)) wl "" = nth k ws "".
Proof.
  induction ws as [|w ws IH]; intros Hws.
  - exists []. repeat split; [constructor|]. cbn. lia.
  - inversion Hws as [|? ? Hw Hws']; subst.
    destruct (IH Hws') as (ds & Hlen & Hds & Hnth).
    destruct (In_nth wl w "" Hw) as (n & Hn & Hnw).
    exists (Z.of_nat n :: ds). split; [cbn; lia|]. split.
    + constructor; [lia|exact Hds].
    + intros [|k] Hk; cbn [nth].
      * now rewrite Nat2Z.id.
      * apply Hnth. cbn in Hk. lia.
Qed.

End CoverageOfTemplates.

(** X4: the encoder covers the search space: whichever words of the
    vocabulary are chosen for the free slots of a template, some index of
    [0, V^M) yields exactly that candidate. *)
Theorem generateCombination_covers
    (vocabulary : list string) (t : Spec.template) (ws : list string) :
  Z.of_nat (List.length ws) = Spec.freeCount t ->
  Forall (fun w => In w vocabulary) ws ->
  exists idx,
    0 <= idx < Spec.searchSpaceSize vocabulary t
    /\ generateCombination (recovery_of_template vocabulary t) idx
       = Ok (map Some (fill_words t ws)).
Proof.
  intros Hlen Hws.
  destruct (digits_of_words vocabulary ws Hws) as (ds & Hl & Hds & Hnth).
  destruct (list_eq_dec string_dec ws []) as [->|Hne].
  { (* no free slot: index 0 *)
    exists 0. unfold Spec.searchSpaceSize. rewrite <- Hlen. cbn [List.length Z.of_nat].
    rewrite Z.pow_0_r. split; [lia|].
    rewrite generateCombination_encode; [|lia|rewrite <- Hlen; cbn; lia].
    do 2 f_equal. unfold Spec.encode. apply fill_fill_words.
    - rewrite <- Hlen. cbn. lia.
    - cbn. intros k Hk. lia. }
  assert (HV : 0 < Z.of_nat (List.length vocabulary)).
  { destruct vocabulary; [|cbn; lia].
    destruct ws as [|w0 ws0]; [congruence|].
    inversion Hws as [|? ? Hin _]. destruct Hin. }
  set (V := Z.of_nat (List.length vocabulary)) in *.
  exists (index_of_digits V ds).
  pose proof (index_of_digits_range V HV ds Hds) as Hr.
  unfold Spec.searchSpaceSize. fold V. rewrite <- Hlen, <- Hl.
  split; [exact Hr|].
  rewrite generateCombination_encode;
    [|lia|intros _ ->; unfold V in HV; cbn in HV; lia].
  do 2 f_equal. unfold Spec.encode. apply fill_fill_words; [lia|].
  intros k Hk. rewrite Z.add_0_l. fold V.
  rewrite <- Hlen, <- Hl.
  rewrite (digitValue_index_of_digits V HV ds Hds k) by lia.
  now apply Hnth.
Qed.

Lemma generateCombination_covers_witness :
  exists idx,
    0 <= idx < Spec.searchSpaceSize ["a"; "b"; "c"] example_template
    /\ generateCombination (recovery_of_template ["a"; "b"; "c"] example_template) idx
       = Ok (map Some (fill_words example_template ["c"; "a"])).
Proof.
  apply (generateCombination_covers ["a"; "b"; "c"] example_template ["c"; "a"]).
  - reflexivity.
  - repeat apply Forall_cons; try apply Forall_nil; cbn; tauto.
Defined.

(* ================================================================== *)
(** * Further properties of checkpoints and initialization *)

Section CheckpointFacts.

Variable E : Env.

Lemma only_reports_no_validate (tr : list event) :
  only_reports tr -> no_validate tr.
Proof.
  unfold only_reports, no_validate. rewrite !forallb_forall.
  intros H ev Hin. specialize (H ev Hin). now destruct ev.
Qed.

(** What [loadCheckpoint] does, case by case. *)
Lemma loadCheckpoint_run (this : Recovery) (w : World) :
  exists loaded this' w' new,
    loadCheckpoint E this w = (Ok (loaded, this'), w')
    /\ logFile w' = logFile w
    /\ checkpointFile w' = checkpointFile w
    /\ trace w' = new ++ trace w
    /\ only_reports new
    /\ (loaded = false -> this' = this)
    /\ (loaded = true ->
        exists c total,
          checkpointFile w = Some (CheckpointJSON c)
          /\ BigIntText.parse (ck_totalAttempts c) = Some total
          /\ this' = restore_checkpoint this total (ck_validAttempts c)
                       (ck_foundValidPhrases c) (ck_startTime c)).
Proof.
  unfold loadCheckpoint, try_catch, bind, fs_access_checkpoint,
    fs_readFile_checkpoint, lift, console_error, ret, tick, emit.
  cbn [ticks logFile checkpointFile trace].
  destruct (io_fails E (ticks w)).
  { exists false, this. eexists. exists [].
    repeat split; try reflexivity; discriminate. }
  destruct (checkpointFile w) as [text|] eqn:Hck.
  2:{ exists false, this. eexists. exists [].
      cbn [ticks logFile checkpointFile trace].
      repeat split; try reflexivity; try discriminate; auto. }
  cbn [ticks logFile checkpointFile trace].
  destruct (io_fails E (S (ticks w))).
  { exists false, this. eexists. eexists [_].
    repeat split; try reflexivity; try discriminate; auto. }
  destruct text as [c|]; cbn [JSON_parse].
  2:{ exists false, this. eexists. eexists [_].
      repeat split; try reflexivity; try discriminate; auto. }
  unfold BigIntText.ofString.
  destruct (BigIntText.parse (ck_totalAttempts c)) as [total|] eqn:Hp.
  - exists true. eexists. eexists. exists [].
    split; [reflexivity|]. cbn [ticks logFile checkpointFile trace].
    repeat split; try reflexivity; try discriminate; auto.
    intros _. exists c, total. repeat split; auto.
  - exists false, this. eexists. eexists [_].
    repeat split; try reflexivity; try discriminate; auto.
Qed.

(** What [initialize] does, case by case. *)
Lemma initialize_run (this : Recovery) (w : World) :
  let this0 := set_wordList this (wordListPromise E) in
  (wordListPromise E = [] /\
   initialize E this w
   = (Throw (Error "Failed to load word list. Ensure english.txt is present."), w))
  \/ (wordListPromise E <> [] /\ offenders E (knownWords this) <> [] /\
      initialize E this w
      = (Throw (Error ("Invalid words in known words: "
                       ++ join ", " (offenders E (knownWords this)))%string), w))
  \/ (wordListPromise E <> [] /\ offenders E (knownWords this) = [] /\
      exists e, computeCombinationCount this0 = Throw e
                /\ initialize E this w = (Throw e, w))
  \/ (wordListPromise E <> [] /\ offenders E (knownWords this) = [] /\
      exists count this' w' new,
        computeCombinationCount this0 = Ok count
        /\ initialize E this w = (Ok this', w')
        /\ logFile w' = logFile w
        /\ checkpointFile w' = checkpointFile w
        /\ trace w' = new ++ trace w
        /\ only_reports new
        /\ knownWords this' = knownWords this
        /\ missingPositions this' = missingPositions this
        /\ wordList this' = wordListPromise E
        /\ combinationCount this' = Some count
        /\ usdtContract this' = true
        /\ startTime this' <> None).
Proof.
  cbv zeta.
  destruct (list_eq_dec string_dec (wordListPromise E) []) as [Hwl|Hwl].
  { left. split; [exact Hwl|]. unfold initialize. cbn [wordList set_wordList].
    rewrite Hwl. reflexivity. }
  right.
  destruct (list_eq_dec string_dec (offenders E (knownWords this)) []) as [Hoff|Hoff].
  2:{ left. split; [exact Hwl|]. split; [exact Hoff|].
      now apply initialize_unknown_words. }
  right.
  assert (Hinit :
            initialize E this w
            = match computeCombinationCount (set_wordList this (wordListPromise E)) with
              | Ok count =>
                  bind (loadCheckpoint E
                          (set_combinationCount
                             (set_wordList this (wordListPromise E)) (Some count)))
                       (fun loaded =>
                          let this := set_usdtContract (snd loaded) true in
                          if startTime_unset this
                          then bind (Date_now E)
                                 (fun now => ret (set_startTime this (Some now)))
                          else ret this) w
              | Throw e => (Throw e, w)
              end).
  { unfold initialize. cbn [wordList knownWords set_wordList].
    unfold offenders in Hoff. rewrite Hoff.
    destruct (wordListPromise E) as [|x wl] eqn:Hw; [congruence|].
    cbn [List.length Nat.eqb Nat.ltb Nat.leb]. rewrite <- Hw.
    unfold bind at 1. unfold lift at 1.
    destruct (computeCombinationCount (set_wordList this (wordListPromise E)));
      reflexivity. }
  rewrite Hinit. clear Hinit.
  destruct (computeCombinationCount (set_wordList this (wordListPromise E)))
    as [count|e] eqn:Hcount.
  2:{ left. split; [exact Hwl|]. split; [exact Hoff|]. exists e. now split. }
  right. split; [exact Hwl|]. split; [exact Hoff|].
  set (this1 := set_combinationCount (set_wordList this (wordListPromise E)) (Some count)).
  destruct (loadCheckpoint_run this1 w)
    as (loaded & this2 & w2 & new & Hload & Hlog & Hck & Htr & Hrep & Hfalse & Htrue).
  exists count. unfold bind at 1. rewrite Hload. cbv zeta. cbn [snd].
  assert (Hfields : knownWords this2 = knownWords this
                    /\ missingPositions this2 = missingPositions this
                    /\ wordList this2 = wordListPromise E
                    /\ combinationCount this2 = Some count).
  { destruct loaded.
    - destruct (Htrue eq_refl) as (c & total & _ & _ & ->). repeat split.
    - rewrite (Hfalse eq_refl). repeat split. }
  destruct Hfields as (Hk & Hm & Hw2 & Hc).
  destruct (startTime_unset (set_usdtContract this2 true)) eqn:Hunset.
  - eexists. eexists. exists new. split; [reflexivity|].
    split; [reflexivity|].
    unfold bind, Date_now, ret, tick. cbn [logFile checkpointFile trace].
    repeat split; try assumption; discriminate.
  - exists (set_usdtContract this2 true), w2, new. split; [reflexivity|].
    split; [reflexivity|].
    repeat split; try assumption.
    unfold startTime_unset in Hunset. cbn [startTime set_usdtContract] in *.
    destruct (startTime this2); [discriminate|discriminate].
Qed.

End CheckpointFacts.

(** X5: [loadCheckpoint] never throws and never changes a file.  It
    answers [true] only for a checkpoint file that parses and whose
    [totalAttempts] text reads as a BigInt, and then restores the four
    saved fields; whenever it answers [false] (no file, unreadable file,
    text that is not JSON, a count that is not a BigInt) the object is
    left exactly as it was. *)
Theorem loadCheckpoint_all_or_nothing (E : Env) (this : Recovery) (w : World) :
  exists loaded this' w',
    loadCheckpoint E this w = (Ok (loaded, this'), w')
    /\ logFile w' = logFile w
    /\ checkpointFile w' = checkpointFile w
    /\ (loaded = false -> this' = this)
    /\ (loaded = true ->
        exists c total,
          checkpointFile w = Some (CheckpointJSON c)
          /\ BigIntText.parse (ck_totalAttempts c) = Some total
          /\ this' = restore_checkpoint this total (ck_validAttempts c)
                       (ck_foundValidPhrases c) (ck_startTime c)).
Proof.
  destruct (loadCheckpoint_run E this w)
    as (loaded & this' & w' & new & H & Hlog & Hck & _ & _ & Hf & Ht).
  exists loaded, this', w'. repeat split; assumption.
Qed.


(** X7: [initialize] only reads: whether it returns or throws, the ledger
    and the checkpoint file are as before, and all it adds to the trace
    are error reports. *)
Theorem initialize_only_reads (E : Env) (this : Recovery) (w : World) :
  logFile (snd (initialize E this w)) = logFile w
  /\ checkpointFile (snd (initialize E this w)) = checkpointFile w
  /\ exists new,
       trace (snd (initialize E this w)) = new ++ trace w
       /\ forallb is_ConsoleError new = true.
Proof.
  destruct (initialize_run E this w)
    as [[_ H]|[(_ & _ & H)|[(_ & _ & e & _ & H)|
        (_ & _ & count & this' & w' & new & _ & H & Hlog & Hck & Htr & Hrep & _)]]];
    rewrite H; cbn [snd]; try (repeat split; try (exists []; split); reflexivity).
  split; [exact Hlog|]. split; [exact Hck|]. now exists new.
Qed.

(** X8: [initialize] returns exactly when a word list was loaded, every
    known word is in it and the count converts to a BigInt; the object it
    returns then has the word list, the count, the contract and a start
    time set, and keeps the known words and the missing positions. *)
Theorem initialize_succeeds_iff (E : Env) (this : Recovery) (w : World) :
  ((exists this' w', initialize E this w = (Ok this', w'))
   <-> (wordListPromise E <> []
        /\ Forall (fun word => In word (wordListPromise E)) (knownWords this)
        /\ exists count,
             computeCombinationCount (set_wordList this (wordListPromise E))
             = Ok count))
  /\ (forall this' w',
         initialize E this w = (Ok this', w') ->
         knownWords this' = knownWords this
         /\ missingPositions this' = missingPositions this
         /\ wordList this' = wordListPromise E
         /\ (exists count,
                combinationCount this' = Some count
                /\ computeCombinationCount (set_wordList this (wordListPromise E))
                   = Ok count)
         /\ usdtContract this' = true
         /\ startTime this' <> None).
Proof.
  assert (Hoff_iff : offenders E (knownWords this) = []
                     <-> Forall (fun word => In word (wordListPromise E))
                           (knownWords this)).
  { rewrite Forall_forall. split.
    - intros Hoff word Hin.
      destruct (in_dec string_dec word (wordListPromise E)) as [Hy|Hn]; [exact Hy|].
      exfalso. assert (Ho : In word (offenders E (knownWords this)))
        by (apply offenders_spec; now split).
      rewrite Hoff in Ho. exact Ho.
    - intros Hall. destruct (offenders E (knownWords this)) as [|o os] eqn:Ho;
        [reflexivity|].
      exfalso. assert (Hin : In o (offenders E (knownWords this)))
        by (rewrite Ho; now left).
      apply offenders_spec in Hin as [Hin Hn]. apply Hn, Hall, Hin. }
  destruct (initialize_run E this w)
    as [[Hwl H]|[(Hwl & Hoff & H)|[(Hwl & Hoff & e & Hc & H)|
        (Hwl & Hoff & count & this1 & w1 & new & Hc & H & _ & _ & _ & _
         & Hk & Hm & Hw & Hcc & Hu & Hs)]]]; rewrite H.
  - split.
    + split; [intros (? & ? & [=])|intros (Hne & _); contradiction].
    + intros ? ? [=].
  - split.
    + split; [intros (? & ? & [=])|].
      intros (_ & Hall & _). apply Hoff_iff in Hall. contradiction.
    + intros ? ? [=].
  - split.
    + split; [intros (? & ? & [=])|].
      intros (_ & _ & count & Hcount). congruence.
    + intros ? ? [=].
  - split.
    + split; [|intros _; now exists this1, w1].
      intros _. split; [exact Hwl|]. split; [now apply Hoff_iff|]. now exists count.
    + intros this' w' Heq. injection Heq as <- <-.
      split; [exact Hk|]. split; [exact Hm|]. split; [exact Hw|].
      split; [now exists count|]. now split.
Qed.

(** X9: once [initialize] has returned, [findValidSeedPhrases] on the
    object it returned cannot throw: the only error [main] can report
    comes from initialization. *)
Theorem findValidSeedPhrases_after_initialize
    (E : Env) (this this' : Recovery) (w w' : World) :
  initialize E this w = (Ok this', w') ->
  exists this'' w'', findValidSeedPhrases E this' w' = (Ok this'', w'').
Proof.
  intros Hinit.
  assert (Hwl : wordList this' <> []).
  { destruct (initialize_run E this w)
      as [[_ H]|[(_ & _ & H)|[(_ & _ & e & _ & H)|
          (Hwl & _ & count & this1 & w1 & new & _ & H & _ & _ & _ & _
           & _ & _ & Hw & _)]]]; rewrite H in Hinit; try discriminate.
    injection Hinit as <- <-. now rewrite Hw. }
  destruct (findValidSeedPhrases_run E this' w' Hwl) as (this'' & w'' & _ & H & _).
  now exists this'', w''.
Qed.

Lemma findValidSeedPhrases_after_initialize_witness :
  exists this'' w'',
    findValidSeedPhrases (quiet_env ["a"; "b"])
      (mkRecovery ["a"] [2] 0 0 ["a"; "b"] true (Some 1) (Some 2) [] 0 [])
      (mkWorld None None 2 [])
    = (Ok this'', w'').
Proof.
  apply (findValidSeedPhrases_after_initialize (quiet_env ["a"; "b"])
           (recovery_for ["a"] [2] []) _ fresh_world _).
  vm_compute. reflexivity.
Defined.

(* ================================================================== *)
(** * Further properties of validation *)

(** X11: [validateSeedPhrase] answers [true] exactly when the phrase
    passes the word-list check, the contract is set, a wallet derives
    from the phrase, the balance lookup succeeds and the balance exceeds
    the threshold; and when the word-list check fails the balance service
    is not called at all. *)
Theorem validateSeedPhrase_true_iff
    (E : Env) (this : Recovery) (seedPhrase : list jsword) (w : World) :
  (fst (validateSeedPhrase E this seedPhrase w) = Ok true
   <-> isValidBIP39Phrase this seedPhrase = true
       /\ usdtContract this = true
       /\ exists address balance,
            Wallet_fromPhrase E (join_js " " seedPhrase) = Some address
            /\ balanceOf E (ticks w) address = Some balance
            /\ balanceInUSDT_gt_100 balance = true)
  /\ (isValidBIP39Phrase this seedPhrase = false ->
      validateSeedPhrase E this seedPhrase w
      = (Ok false, emit (Validate seedPhrase) w)).
Proof.
  unfold validateSeedPhrase, try_catch, bind, Wallet_address,
    usdtContract_balanceOf, ret, tick, emit.
  cbn [ticks logFile checkpointFile trace].
  destruct (isValidBIP39Phrase this seedPhrase); cbn [negb].
  2:{ split; [|reflexivity]. cbn [fst]. split; [discriminate|].
      intros (H & _). discriminate. }
  split; [|discriminate].
  destruct (Wallet_fromPhrase E (join_js " " seedPhrase)) as [address|].
  2:{ cbn [fst]. split; [discriminate|]. intros (_ & _ & a & b & H & _). discriminate. }
  destruct (usdtContract this).
  2:{ cbn [fst]. split; [discriminate|]. intros (_ & H & _). discriminate. }
  cbn [ticks logFile checkpointFile trace].
  destruct (balanceOf E (ticks w) address) as [balance|] eqn:Hb.
  2:{ cbn [fst]. split; [discriminate|].
      intros (_ & _ & a & b & [= <-] & H & _). congruence. }
  cbn [fst]. split.
  - intros H. apply Ok_inj in H. repeat split. now exists address, balance.
  - intros (_ & _ & a & b & [= <-] & Hb' & Hgt). congruence.
Qed.

(** The threshold: 100 USDT itself is not enough, 101 is. *)
Example balanceInUSDT_threshold :
  balanceInUSDT_gt_100 (100 * 10 ^ 18) = false
  /\ balanceInUSDT_gt_100 (100 * 10 ^ 18 + 1) = false
  /\ balanceInUSDT_gt_100 (101 * 10 ^ 18) = true.
Proof. repeat split; reflexivity. Qed.

(* ================================================================== *)
(** * Further properties of the enumeration loop *)

Section LoopEffects.

Variable E : Env.

Lemma validated_acc (tr : list event) (acc : list (list jsword)) :
  fold_left
    (fun acc ev => match ev with Validate c => c :: acc | _ => acc end) tr acc
  = validated tr ++ acc.
Proof.
  unfold validated. revert acc.
  induction tr as [|ev tr IH]; intros acc; cbn [fold_left]; [reflexivity|].
  rewrite IH. rewrite (IH (match ev with Validate c => [c] | _ => [] end)).
  destruct ev; cbn; rewrite <- ?app_assoc; reflexivity.
Qed.

Lemma validated_app (a b : list event) :
  validated (a ++ b) = validated b ++ validated a.
Proof.
  unfold validated at 1. rewrite fold_left_app, validated_acc. reflexivity.
Qed.

Lemma validated_no_validate (tr : list event) :
  no_validate tr -> validated tr = [].
Proof.
  unfold no_validate. induction tr as [|ev tr IH]; [reflexivity|].
  cbn [forallb]. intros H. apply andb_prop in H as [Hev Htr].
  change (ev :: tr) with ([ev] ++ tr). rewrite validated_app, (IH Htr).
  destruct ev; try reflexivity. discriminate.
Qed.

Lemma Set_has_add_other (idx i : Z) (s : list Z) :
  i <> idx -> Set_has (Set_add idx s) i = Set_has s i.
Proof.
  intros Hne. unfold Set_add. destruct (Set_has s idx); [reflexivity|].
  unfold Set_has. rewrite existsb_app. cbn.
  destruct (Z.eqb_spec i idx); [contradiction|]. now rewrite !orb_false_r.
Qed.

Lemma matches_kept_refl (a : Recovery) : matches_kept a a.
Proof. exists []. rewrite app_nil_r. cbn. split; [reflexivity|lia]. Qed.

Lemma matches_kept_trans (a b c : Recovery) :
  matches_kept a b -> matches_kept b c -> matches_kept a c.
Proof.
  intros (m1 & Hf1 & Hv1) (m2 & Hf2 & Hv2). exists (m1 ++ m2).
  rewrite Hf2, Hf1, Hv2, Hv1, length_app, <- app_assoc. split; [reflexivity|lia].
Qed.

Lemma matches_kept_same (a b : Recovery) :
  foundValidPhrases b = foundValidPhrases a ->
  validAttempts b = validAttempts a ->
  matches_kept a b.
Proof. intros Hf Hv. exists []. rewrite app_nil_r, Hf, Hv. cbn. split; [reflexivity|lia]. Qed.

Lemma logSeedPhraseAttempt_effects (this : Recovery) (c : list jsword) (w : World) :
  exists this' w' new,
    logSeedPhraseAttempt E this c true w = (Ok this', w')
    /\ trace w' = new ++ trace w
    /\ no_validate new
    /\ (this' = this \/ this' = record_valid this (join_js " " c)).
Proof.
  unfold logSeedPhraseAttempt, try_catch, bind, Date_now, fs_appendFile_log,
    console_error, ret, tick, emit.
  cbn [ticks logFile checkpointFile trace].
  destruct (io_fails E (S (ticks w))).
  - eexists. eexists. eexists (_ :: _ :: []). repeat split. now left.
  - eexists. eexists. eexists (_ :: []). repeat split. now right.
Qed.

(** One turn: what is validated, what happens to the attempted set and to
    the matches. *)
Lemma loop_body_effects (this : Recovery) (idx : Z) (w : World) :
  wordList this <> [] ->
  exists this' w' new,
    loop_body E this idx w = (Ok this', w')
    /\ trace w' = new ++ trace w
    /\ same_setup this' this
    /\ matches_kept this this'
    /\ (forall i, i <> idx ->
          Set_has (attemptedCombinations this') i
          = Set_has (attemptedCombinations this) i)
    /\ candidates_of this
         (if Set_has (attemptedCombinations this) idx then [] else [idx])
         (validated new).
Proof.
  intros Hwl. unfold loop_body.
  destruct (Set_has (attemptedCombinations this) idx).
  { exists (set_totalAttempts this (idx + 1)), w, [].
    repeat split. - now apply matches_kept_same. - constructor. }
  set (this0 := set_totalAttempts this (idx + 1)).
  assert (Hs0 : same_setup this0 this) by (repeat split).
  destruct (generateCombination_total this0 idx Hwl) as [c Hc].
  assert (Hc' : generateCombination this idx = Ok c)
    by (now rewrite <- (generateCombination_same_setup this0 this idx Hs0)).
  unfold bind at 1. unfold lift at 1. rewrite Hc.
  destruct (logAttemptedCombination_run E this0 idx w)
    as (this1 & w1 & Hlog & Htr1 & Hthis1 & _).
  unfold bind at 1. rewrite Hlog.
  assert (Hf1 : same_setup this1 this
                /\ matches_kept this this1
                /\ (forall i, i <> idx ->
                      Set_has (attemptedCombinations this1) i
                      = Set_has (attemptedCombinations this) i)).
  { rewrite Hthis1. destruct (io_fails E (ticks w)).
    - repeat split. now apply matches_kept_same.
    - split; [repeat split|]. split; [now apply matches_kept_same|].
      intros i Hi. cbn [attemptedCombinations set_attemptedCombinations this0 set_totalAttempts].
      now apply Set_has_add_other. }
  destruct Hf1 as (Hs1 & Hm1 & Ha1). clear Hthis1.
  destruct (validateSeedPhrase_run E this1 c w1) as (b & w2 & Hval & Htr2 & _).
  unfold bind at 1. rewrite Hval.
  assert (Hmatch :
            exists this3 w3 post3,
              (if b then logSeedPhraseAttempt E this1 c b else ret this1) w2
              = (Ok this3, w3)
              /\ trace w3 = post3 ++ trace w2
              /\ no_validate post3
              /\ same_setup this3 this
              /\ matches_kept this this3
              /\ attemptedCombinations this3 = attemptedCombinations this1).
  { destruct b.
    - destruct (logSeedPhraseAttempt_effects this1 c w2)
        as (this3 & w3 & post3 & H3 & Htr3 & Hnv3 & [->| ->]).
      + exists this1, w3, post3. repeat split; try assumption; apply Hs1.
      + exists (record_valid this1 (join_js " " c)), w3, post3.
        split; [exact H3|]. split; [exact Htr3|]. split; [exact Hnv3|].
        split; [exact Hs1|]. split; [|reflexivity].
        apply matches_kept_trans with this1; [exact Hm1|].
        exists [join_js " " c]. cbn. split; reflexivity.
    - exists this1, w2, []. repeat split; try assumption; apply Hs1. }
  destruct Hmatch as (this3 & w3 & post3 & H3 & Htr3 & Hnv3 & Hs3 & Hm3 & Ha3).
  unfold bind at 1. rewrite H3.
  assert (Hprog :
            exists w4,
              (if Z.rem (totalAttempts this3) LOGGING_INTERVAL =? 0
               then bind (Date_now E) (fun _ => ret tt) else ret tt) w3
              = (Ok tt, w4)
              /\ trace w4 = trace w3).
  { destruct (Z.rem (totalAttempts this3) LOGGING_INTERVAL =? 0);
      eexists; split; reflexivity. }
  destruct Hprog as (w4 & H4 & Htr4).
  unfold bind at 1. rewrite H4.
  unfold bind at 1. unfold Date_now at 1.
  assert (Hval1 : forall post5,
             no_validate post5 ->
             candidates_of this [idx]
               (validated ((post5 ++ post3) ++ Validate c
                           :: attempt_record idx (negb (io_fails E (ticks w)))))).
  { intros post5 Hnv5.
    change (Validate c :: attempt_record idx (negb (io_fails E (ticks w))))
      with ([Validate c] ++ attempt_record idx (negb (io_fails E (ticks w)))).
    rewrite !validated_app.
    rewrite (validated_no_validate post5 Hnv5), (validated_no_validate post3 Hnv3).
    rewrite (validated_no_validate _ (no_validate_attempt_record idx _)).
    cbn. constructor; [exact Hc'|constructor]. }
  destruct (CHECKPOINT_INTERVAL <=? clock E (ticks w4) - lastCheckpointTime this3).
  - destruct (saveCheckpoint_run E this3 (tick w4)) as (w5 & post5 & H5 & Htr5 & Hnv5 & _).
    unfold bind at 1. rewrite H5.
    exists (set_lastCheckpointTime this3 (clock E (ticks w4))), w5.
    exists ((post5 ++ post3) ++ Validate c :: attempt_record idx (negb (io_fails E (ticks w)))).
    split; [reflexivity|]. split.
    { rewrite Htr5. cbn [tick trace]. rewrite Htr4, Htr3, Htr2, Htr1.
      rewrite <- !app_assoc. reflexivity. }
    split; [exact Hs3|]. split.
    { destruct Hm3 as (more & Hf & Hv). exists more. split; assumption. }
    split; [|now apply Hval1].
    intros i Hi. cbn [attemptedCombinations set_lastCheckpointTime].
    rewrite Ha3. now apply Ha1.
  - exists this3, (tick w4).
    exists (([] ++ post3) ++ Validate c :: attempt_record idx (negb (io_fails E (ticks w)))).
    split; [reflexivity|]. split.
    { cbn [tick trace app]. rewrite Htr4, Htr3, Htr2, Htr1.
      rewrite <- !app_assoc. reflexivity. }
    split; [exact Hs3|]. split; [exact Hm3|].
    split; [|now apply (Hval1 [])].
    intros i Hi. rewrite Ha3. now apply Ha1.
Qed.

Lemma zrange_lower (start : Z) (n : nat) (i : Z) :
  In i (zrange start n) -> start <= i.
Proof.
  revert start. induction n as [|n IH]; intros start; cbn [zrange In]; [tauto|].
  intros [<-|H]; [lia|]. apply IH in H. lia.
Qed.

Lemma candidates_of_same_setup (a b : Recovery) (l : list Z) (cs : list (list jsword)) :
  same_setup a b -> candidates_of a l cs -> candidates_of b l cs.
Proof.
  intros Hs H. unfold candidates_of in *. eapply Forall2_impl; [|exact H].
  intros i c Hg. now rewrite <- (generateCombination_same_setup a b i Hs).
Qed.

Lemma enumerate_effects (turns : nat) :
  forall (idx : Z) (this : Recovery) (w : World),
    wordList this <> [] ->
    exists this' w' new,
      enumerate E turns idx this w = (Ok this', w')
      /\ trace w' = new ++ trace w
      /\ same_setup this' this
      /\ matches_kept this this'
      /\ candidates_of this
           (pending (attemptedCombinations this) idx
              (Nat.min turns (Z.to_nat (loop_bound this - idx))))
           (validated new).
Proof.
  induction turns as [|turns IH]; intros idx this w Hwl; cbn [enumerate].
  - exists this, w, []. repeat split.
    + apply matches_kept_refl.
    + cbn. constructor.
  - destruct (Z.ltb_spec idx (loop_bound this)) as [Hlt|Hge].
    + destruct (loop_body_effects this idx w Hwl)
        as (this1 & w1 & new1 & H1 & Htr1 & Hs1 & Hm1 & Ha1 & Hc1).
      assert (Hwl1 : wordList this1 <> [])
        by (now rewrite (wordList_same_setup _ _ Hs1)).
      destruct (IH (idx + 1) this1 w1 Hwl1)
        as (this2 & w2 & new2 & H2 & Htr2 & Hs2 & Hm2 & Hc2).
      unfold bind. rewrite H1.
      exists this2, w2, (new2 ++ new1).
      split; [exact H2|].
      split; [now rewrite Htr2, Htr1, app_assoc|].
      split; [now apply same_setup_trans with this1|].
      split; [now apply matches_kept_trans with this1|].
      rewrite validated_app.
      replace (Z.to_nat (loop_bound this - idx))
        with (S (Z.to_nat (loop_bound this - (idx + 1)))) by lia.
      cbn [Nat.min]. unfold pending. cbn [zrange filter].
      rewrite (loop_bound_same_setup _ _ Hs1) in Hc2.
      apply candidates_of_same_setup with (b := this) in Hc2; [|exact Hs1].
      unfold pending in Hc2.
      rewrite (filter_ext_in
                 (fun i => negb (Set_has (attemptedCombinations this1) i))
                 (fun i => negb (Set_has (attemptedCombinations this) i))) in Hc2.
      2:{ intros i Hi. apply zrange_lower in Hi. rewrite Ha1 by lia. reflexivity. }
      unfold candidates_of in *.
      destruct (Set_has (attemptedCombinations this) idx); cbn [negb].
      * destruct (validated new1); [exact Hc2|inversion Hc1].
      * apply (Forall2_app Hc1 Hc2).
    + exists this, w, []. repeat split.
      * apply matches_kept_refl.
      * replace (Z.to_nat (loop_bound this - idx)) with 0%nat by lia.
        rewrite Nat.min_0_r. cbn. constructor.
Qed.

Lemma findValidSeedPhrases_effects (this : Recovery) (w : World) :
  wordList this <> [] ->
  exists w1 this2 w2 this' w' new,
    prepareLogFile E this w = (Ok tt, w1)
    /\ loadAttemptedCombinations E this w1 = (Ok this2, w2)
    /\ findValidSeedPhrases E this w = (Ok this', w')
    /\ trace w' = new ++ trace w
    /\ matches_kept this this'
    /\ candidates_of this
         (pending (attemptedCombinations this2) (totalAttempts this)
            (turns_left this))
         (validated new).
Proof.
  intros Hwl. unfold findValidSeedPhrases.
  destruct (wordList this) as [|x wl] eqn:Hw; [congruence|].
  cbn [List.length Nat.eqb]. rewrite <- Hw in *. clear Hw x wl.
  destruct (prepareLogFile_run E this w) as (w1 & new1 & H1 & Htr1 & Hn1).
  unfold bind at 1. rewrite H1.
  destruct (loadAttemptedCombinations_run E this w1)
    as (this2 & w2 & new2 & H2 & Htr2 & Hn2 & Hs2 & Ht2 & Hv2 & Hf2).
  unfold bind at 1. rewrite H2.
  assert (Hwl2 : wordList this2 <> [])
    by (now rewrite (wordList_same_setup _ _ Hs2)).
  destruct (enumerate_effects (turns_left this2) (totalAttempts this2) this2 w2 Hwl2)
    as (this3 & w3 & new3 & H3 & Htr3 & Hs3 & Hm3 & Hc3).
  unfold bind at 1. rewrite H3.
  destruct (saveCheckpoint_run E this3 w3) as (w4 & new4 & H4 & Htr4 & Hn4 & _).
  unfold bind at 1. rewrite H4.
  exists w1, this2, w2, this3, w4, (new4 ++ new3 ++ new2 ++ new1).
  split; [first [reflexivity|exact H1]|].
  split; [first [reflexivity|exact H2]|]. split; [reflexivity|].
  split; [now rewrite Htr4, Htr3, Htr2, Htr1, <- !app_assoc|].
  split.
  { apply matches_kept_trans with this2; [now apply matches_kept_same|exact Hm3]. }
  rewrite !validated_app.
  rewrite (validated_no_validate new1 Hn1), (validated_no_validate new2 Hn2),
    (validated_no_validate new4 Hn4).
  cbn [app]. rewrite app_nil_r.
  apply candidates_of_same_setup with (b := this) in Hc3; [|exact Hs2].
  unfold turns_left in *. rewrite Nat.min_id in Hc3.
  now rewrite (loop_bound_same_setup _ _ Hs2), Ht2 in Hc3.
Qed.

End LoopEffects.

(** X12: the loop validates, in increasing order of index and once each,
    exactly the candidates of the indices between its start and its bound
    that are not in the attempted set; [turns] only cuts the run short. *)
Theorem enumerate_validates_pending
    (E : Env) (turns : nat) (idx : Z) (this : Recovery) (w : World) :
  wordList this <> [] ->
  exists this' w' new,
    enumerate E turns idx this w = (Ok this', w')
    /\ trace w' = new ++ trace w
    /\ candidates_of this
         (pending (attemptedCombinations this) idx
            (Nat.min turns (Z.to_nat (loop_bound this - idx))))
         (validated new).
Proof.
  intros Hwl.
  destruct (enumerate_effects E turns idx this w Hwl)
    as (this' & w' & new & H & Htr & _ & _ & Hc).
  now exists this', w', new.
Qed.

Lemma enumerate_validates_pending_witness :
  exists this' w' new,
    enumerate (quiet_env ["a"; "b"; "c"]) 9 2
      (set_attemptedCombinations
         (set_combinationCount
            (recovery_of_template ["a"; "b"; "c"] example_template) (Some 9))
         [3; 4; 7])
      fresh_world
    = (Ok this', w')
    /\ trace w' = new ++ trace fresh_world
    /\ candidates_of
         (set_attemptedCombinations
            (set_combinationCount
               (recovery_of_template ["a"; "b"; "c"] example_template) (Some 9))
            [3; 4; 7])
         (pending [3; 4; 7] 2 (Nat.min 9 (Z.to_nat (9 - 2))))
         (validated new).
Proof.
  apply (enumerate_validates_pending (quiet_env ["a"; "b"; "c"]) 9 2
           (set_attemptedCombinations
              (set_combinationCount
                 (recovery_of_template ["a"; "b"; "c"] example_template) (Some 9))
              [3; 4; 7])
           fresh_world).
  cbn. discriminate.
Defined.

(** X13: a run of [findValidSeedPhrases] only adds matches: the phrases
    found before are still there, in order, and [validAttempts] has grown
    by exactly the number of phrases added, so the two stay in step. *)
Theorem findValidSeedPhrases_keeps_matches (E : Env) (this : Recovery) (w : World) :
  wordList this <> [] ->
  exists this' w' more,
    findValidSeedPhrases E this w = (Ok this', w')
    /\ foundValidPhrases this' = foundValidPhrases this ++ more
    /\ validAttempts this' = validAttempts this + Z.of_nat (List.length more).
Proof.
  intros Hwl.
  destruct (findValidSeedPhrases_effects E this w Hwl)
    as (w1 & this2 & w2 & this' & w' & new & _ & _ & H & _ & (more & Hf & Hv) & _).
  now exists this', w', more.
Qed.

Lemma findValidSeedPhrases_keeps_matches_witness :
  exists this' w' more,
    findValidSeedPhrases (quiet_env ["a"; "b"])
      (set_combinationCount (recovery_for [] [1] ["a"; "b"]) (Some 2)) fresh_world
    = (Ok this', w')
    /\ foundValidPhrases this' = [] ++ more
    /\ validAttempts this' = 0 + Z.of_nat (List.length more).
Proof.
  apply (findValidSeedPhrases_keeps_matches (quiet_env ["a"; "b"])
           (set_combinationCount (recovery_for [] [1] ["a"; "b"]) (Some 2))
           fresh_world).
  cbn. discriminate.
Defined.

(** X14: on an object whose [totalAttempts] has reached the count (a
    finished search, or a checkpoint from a larger one),
    [findValidSeedPhrases] validates nothing and leaves the counters as
    they are. *)
Theorem findValidSeedPhrases_nothing_left (E : Env) (this : Recovery) (w : World) :
  wordList this <> [] ->
  loop_bound this <= totalAttempts this ->
  exists this' w' new,
    findValidSeedPhrases E this w = (Ok this', w')
    /\ trace w' = new ++ trace w
    /\ validated new = []
    /\ totalAttempts this' = totalAttempts this
    /\ validAttempts this' = validAttempts this
    /\ foundValidPhrases this' = foundValidPhrases this.
Proof.
  intros Hwl Hdone. unfold findValidSeedPhrases.
  destruct (wordList this) as [|x wl] eqn:Hw; [congruence|].
  cbn [List.length Nat.eqb]. rewrite <- Hw in *. clear Hw x wl.
  destruct (prepareLogFile_run E this w) as (w1 & new1 & H1 & Htr1 & Hn1).
  unfold bind at 1. rewrite H1.
  destruct (loadAttemptedCombinations_run E this w1)
    as (this2 & w2 & new2 & H2 & Htr2 & Hn2 & Hs2 & Ht2 & Hv2 & Hf2).
  unfold bind at 1. rewrite H2.
  assert (Hturns : turns_left this2 = 0%nat).
  { unfold turns_left. rewrite (loop_bound_same_setup _ _ Hs2), Ht2. lia. }
  rewrite Hturns. cbn [enumerate]. unfold bind at 1. unfold ret at 1.
  destruct (saveCheckpoint_run E this2 w2) as (w4 & new4 & H4 & Htr4 & Hn4 & _).
  unfold bind at 1. rewrite H4.
  exists this2, w4, (new4 ++ new2 ++ new1).
  split; [reflexivity|].
  split; [now rewrite Htr4, Htr2, Htr1, <- !app_assoc|].
  split; [|now repeat split].
  apply validated_no_validate. apply no_validate_app. split; [exact Hn4|].
  apply no_validate_app. now split.
Qed.

Lemma findValidSeedPhrases_nothing_left_witness :
  exists this' w' new,
    findValidSeedPhrases (quiet_env ["a"; "b"])
      (set_totalAttempts
         (set_combinationCount (recovery_for [] [1] ["a"; "b"]) (Some 2)) 2)
      fresh_world
    = (Ok this', w')
    /\ trace w' = new ++ trace fresh_world
    /\ validated new = []
    /\ totalAttempts this' = 2
    /\ validAttempts this' = 0
    /\ foundValidPhrases this' = [].
Proof.
  apply (findValidSeedPhrases_nothing_left (quiet_env ["a"; "b"])
           (set_totalAttempts
              (set_combinationCount (recovery_for [] [1] ["a"; "b"]) (Some 2)) 2)
           fresh_world).
  - cbn. discriminate.
  - cbn. lia.
Defined.

(* ================================================================== *)
(** * Further properties of the ledger text *)

Section LedgerText.

Local Open Scope string_scope.

Lemma append_assoc (a b c : string) : (a ++ b) ++ c = a ++ (b ++ c).
Proof. induction a as [|x a IH]; cbn; [reflexivity|now rewrite IH]. Qed.

Lemma append_nil_r (a : string) : a ++ "" = a.
Proof. induction a as [|x a IH]; cbn; [reflexivity|now rewrite IH]. Qed.

Lemma no_char_append (x : ascii) (a b : string) :
  no_char x (a ++ b) <-> no_char x a /\ no_char x b.
Proof.
  unfold no_char. induction a as [|c a IH]; cbn [append list_ascii_of_string].
  - split; [intros H; split; [constructor|exact H]|intros [_ H]; exact H].
  - split.
    + intros H. inversion H as [|? ? Hc Ht]; subst. apply IH in Ht as [Ha Hb].
      split; [now constructor|exact Hb].
    + intros [Ha Hb]. inversion Ha as [|? ? Hc Ht]; subst.
      constructor; [exact Hc|]. apply IH. now split.
Qed.

Lemma prefix_append (m s : string) : String.prefix m (m ++ s) = true.
Proof.
  induction m as [|c m IH]; cbn [append].
  - now destruct s.
  - cbn [String.prefix]. destruct (ascii_dec c c); [exact IH|contradiction].
Qed.

Lemma prefix_first_differs (c d : ascii) (m s : string) :
  d <> c -> String.prefix (String c m) (String d s) = false.
Proof.
  intros H. cbn [String.prefix]. destruct (ascii_dec c d); [congruence|reflexivity].
Qed.

(** Passing over the rest of a separator occurrence. *)
Lemma split_from_skip (sep m s : string) :
  Str.split_from sep (String.length m) (m ++ s) = Str.split_from sep 0 s.
Proof.
  induction m as [|c m IH]; cbn [append String.length]; [reflexivity|].
  cbn [Str.split_from]. exact IH.
Qed.

(** A text without the first character of the separator is one piece. *)
Lemma split_from_absent (c : ascii) (m s : string) :
  no_char c s -> Str.split_from (String c m) 0 s = (s, []).
Proof.
  unfold no_char. induction s as [|d s IH]; cbn [list_ascii_of_string]; intros H.
  - reflexivity.
  - inversion H as [|? ? Hd Hs]; subst. cbn [Str.split_from].
    rewrite prefix_first_differs by exact Hd. now rewrite IH.
Qed.

(** Splitting at a separator that occurs once. *)
Lemma split_once (c : ascii) (m h body : string) :
  no_char c h -> no_char c body ->
  Str.split (String c m) (h ++ String c m ++ body) = [h; body].
Proof.
  intros Hh Hb. unfold Str.split.
  assert (H : Str.split_from (String c m) 0 (h ++ String c m ++ body) = (h, [body])).
  { revert Hh. unfold no_char.
    induction h as [|d h IH]; cbn [list_ascii_of_string]; intros Hh.
    - change ("" ++ String c m ++ body) with (String c (m ++ body)).
      cbn [Str.split_from].
      change (String c (m ++ body)) with (String c m ++ body).
      rewrite prefix_append.
      replace (String.length (String c m) - 1)%nat with (String.length m)
        by (cbn [String.length]; lia).
      rewrite split_from_skip, split_from_absent by exact Hb. reflexivity.
    - inversion Hh as [|? ? Hd Hs]; subst.
      change (String d h ++ String c m ++ body)
        with (String d (h ++ String c m ++ body)).
      cbn [Str.split_from]. rewrite prefix_first_differs by exact Hd.
      now rewrite (IH Hs). }
  now rewrite H.
Qed.

(** A line without line feed, followed by a line feed, is the first
    piece of a split at line feeds. *)
Lemma split_nl_line (d rest : string) :
  no_char (ascii_of_nat 10) d ->
  Str.split nl (d ++ nl ++ rest) = d :: Str.split nl rest.
Proof.
  intros Hd. unfold Str.split.
  assert (H : Str.split_from nl 0 (d ++ nl ++ rest)
              = (d, fst (Str.split_from nl 0 rest) :: snd (Str.split_from nl 0 rest))).
  { revert Hd. unfold no_char.
    induction d as [|c d IH]; cbn [list_ascii_of_string]; intros Hd.
    - change ("" ++ nl ++ rest) with (String (ascii_of_nat 10) rest).
      cbn [Str.split_from]. unfold nl at 1.
      cbn [String.prefix]. destruct (ascii_dec (ascii_of_nat 10) (ascii_of_nat 10));
        [|contradiction].
      replace (String.prefix "" rest) with true by (now destruct rest).
      cbn [String.length Nat.sub nl].
      now destruct (Str.split_from nl 0 rest).
    - inversion Hd as [|? ? Hc Hs]; subst.
      change (String c d ++ nl ++ rest) with (String c (d ++ nl ++ rest)).
      cbn [Str.split_from]. unfold nl at 1.
      rewrite prefix_first_differs by exact Hc. fold nl.
      now rewrite (IH Hs). }
  rewrite H. now destruct (Str.split_from nl 0 rest).
Qed.

(** The characters of a printed BigInt. *)
Lemma toString_chars (n : Z) :
  Forall (fun c => In c ("-"%char :: digit_chars))
    (list_ascii_of_string (BigIntText.toString n)).
Proof.
  unfold BigIntText.toString.
  assert (Hu : forall d, Forall (fun c => In c ("-"%char :: digit_chars))
                           (list_ascii_of_string (NilZero.string_of_uint d))).
  { intros d. unfold NilZero.string_of_uint.
    assert (Hd : Forall (fun c => In c ("-"%char :: digit_chars))
                   (list_ascii_of_string (NilEmpty.string_of_uint d))).
    { eapply Forall_impl; [|apply string_of_uint_decimal]. intros c Hc. now right. }
    destruct d; try exact Hd.
    cbn [list_ascii_of_string]. constructor; [right; left; reflexivity|constructor]. }
  destruct (Z.to_int n) as [d|d]; cbn [NilZero.string_of_int list_ascii_of_string].
  - apply Hu.
  - constructor; [now left|apply Hu].
Qed.

Lemma toString_no_char (x : ascii) (n : Z) :
  ~ In x ("-"%char :: digit_chars) -> no_char x (BigIntText.toString n).
Proof.
  intros Hx. unfold no_char. eapply Forall_impl; [|apply toString_chars].
  intros c Hc ->. contradiction.
Qed.

Lemma nl_not_numeric : ~ In (ascii_of_nat 10) ("-"%char :: digit_chars).
Proof. cbn. intuition discriminate. Qed.

Lemma hash_not_numeric : ~ In "#"%char ("-"%char :: digit_chars).
Proof. cbn. intuition discriminate. Qed.

Lemma toString_nonempty (n : Z) : BigIntText.toString n <> "".
Proof.
  intros H. pose proof (parse_toString n) as Hp. rewrite H in Hp.
  cbn in Hp. injection Hp as <-. revert H. vm_compute. discriminate.
Qed.

Lemma trim_toString (n : Z) : Str.trim (BigIntText.toString n) = BigIntText.toString n.
Proof.
  apply trim_id. eapply Forall_impl; [|apply toString_chars].
  intros c Hc. cbn in Hc.
  repeat (destruct Hc as [Hc|Hc]; [subst; reflexivity|]). contradiction.
Qed.

Lemma split_ledger_lines (l : list Z) (rest : string) :
  Str.split nl (ledger_lines l ++ rest)
  = (map BigIntText.toString l ++ Str.split nl rest)%list.
Proof.
  induction l as [|i l IH]; cbn [ledger_lines map List.app]; [reflexivity|].
  rewrite !append_assoc. rewrite split_nl_line.
  - now rewrite IH.
  - apply toString_no_char, nl_not_numeric.
Qed.

Lemma ledger_lines_no_hash (l : list Z) : no_char "#" (ledger_lines l).
Proof.
  induction l as [|i l IH]; cbn [ledger_lines]; [constructor|].
  apply no_char_append. split; [apply toString_no_char, hash_not_numeric|].
  apply no_char_append. split; [|exact IH].
  unfold no_char, nl. cbn. constructor; [discriminate|constructor].
Qed.

Lemma ledger_lines_snoc (l : list Z) (i : Z) :
  ledger_lines (l ++ [i])%list = ledger_lines l ++ BigIntText.toString i ++ nl.
Proof.
  induction l as [|j l IH].
  - change ([] ++ [i])%list with [i]. cbn [ledger_lines append].
    now rewrite append_nil_r.
  - change ((j :: l) ++ [i])%list with (j :: (l ++ [i]))%list.
    cbn [ledger_lines]. now rewrite IH, !append_assoc.
Qed.

Lemma ledger_lines_nonempty (l : list Z) : l <> [] -> ledger_lines l <> "".
Proof.
  destruct l as [|i l]; [congruence|]. intros _. cbn [ledger_lines].
  pose proof (toString_nonempty i) as Hi.
  destruct (BigIntText.toString i); [congruence|discriminate].
Qed.

Lemma map_result_toString (l : list Z) :
  map_result (fun line => BigIntText.ofString (Str.trim line))
    (map BigIntText.toString l)
  = Ok l.
Proof.
  induction l as [|i l IH]; cbn [map map_result]; [reflexivity|].
  now rewrite trim_toString, ofString_toString, IH.
Qed.

Lemma filter_lines_toString (l : list Z) :
  filter (fun line => negb (String.eqb (Str.trim line) ""))
    (map BigIntText.toString l ++ [""])%list
  = map BigIntText.toString l.
Proof.
  induction l as [|i l IH]; cbn [map List.app filter]; [reflexivity|].
  rewrite trim_toString.
  destruct (String.eqb_spec (BigIntText.toString i) "") as [H|_].
  - exfalso. exact (toString_nonempty i H).
  - cbn [negb]. now rewrite IH.
Qed.

Lemma Set_has_In (s : list Z) (x : Z) : Set_has s x = true <-> In x s.
Proof.
  unfold Set_has. rewrite existsb_exists. split.
  - intros (y & Hy & Heq). apply Z.eqb_eq in Heq. now subst.
  - intros H. exists x. split; [exact H|apply Z.eqb_refl].
Qed.

Lemma Set_of_array_In (l : list Z) (x : Z) : In x (Set_of_array l) <-> In x l.
Proof.
  unfold Set_of_array.
  assert (H : forall s, In x (fold_left (fun s y => Set_add y s) l s)
                        <-> In x s \/ In x l).
  { induction l as [|y l IH]; intros s; cbn [fold_left In]; [tauto|].
    rewrite IH. unfold Set_add.
    destruct (Set_has s y) eqn:Hy.
    - apply Set_has_In in Hy. split; [tauto|].
      intros [H|[<-|H]]; tauto.
    - rewrite in_app_iff. cbn [In]. tauto. }
  rewrite H. cbn [In]. tauto.
Qed.

Lemma Set_of_array_NoDup (l : list Z) : NoDup (Set_of_array l).
Proof.
  unfold Set_of_array.
  assert (H : forall s, NoDup s -> NoDup (fold_left (fun s y => Set_add y s) l s)).
  { induction l as [|y l IH]; intros s Hs; cbn [fold_left]; [exact Hs|].
    apply IH. unfold Set_add. destruct (Set_has s y) eqn:Hy; [exact Hs|].
    apply NoDup_app; [exact Hs|repeat constructor; intros []|].
    intros x Hx [<-|[]]. apply Set_has_In in Hx. congruence. }
  apply H. constructor.
Qed.

End LedgerText.

Section LedgerLoading.

Variable E : Env.

Local Open Scope string_scope.

(** Splitting at the first occurrence of a separator. *)
Lemma split_first (c : ascii) (m h body : string) :
  no_char c h ->
  Str.split (String c m) (h ++ String c m ++ body)
  = h :: Str.split (String c m) body.
Proof.
  intros Hh. unfold Str.split.
  assert (H : Str.split_from (String c m) 0 (h ++ String c m ++ body)
              = (h, fst (Str.split_from (String c m) 0 body)
                    :: snd (Str.split_from (String c m) 0 body))).
  { revert Hh. unfold no_char.
    induction h as [|d h IH]; cbn [list_ascii_of_string]; intros Hh.
    - change ("" ++ String c m ++ body) with (String c (m ++ body)).
      cbn [Str.split_from].
      change (String c (m ++ body)) with (String c m ++ body).
      rewrite prefix_append.
      replace (String.length (String c m) - 1)%nat with (String.length m)
        by (cbn [String.length]; lia).
      rewrite split_from_skip.
      now destruct (Str.split_from (String c m) 0 body).
    - inversion Hh as [|? ? Hd Hs]; subst.
      change (String d h ++ String c m ++ body)
        with (String d (h ++ String c m ++ body)).
      cbn [Str.split_from]. rewrite prefix_first_differs by exact Hd.
      now rewrite (IH Hs). }
  rewrite H. now destruct (Str.split_from (String c m) 0 body).
Qed.

Lemma split_ATTEMPTED_START (h body : string) :
  no_char "#" h ->
  Str.split ATTEMPTED_START (h ++ ATTEMPTED_START ++ body)
  = h :: Str.split ATTEMPTED_START body.
Proof. intros Hh. now apply (split_first "#"). Qed.

Lemma split_from_ATTEMPTED_START_absent (s : string) :
  no_char "#" s -> Str.split_from ATTEMPTED_START 0 s = (s, []).
Proof. intros H. now apply (split_from_absent "#"). Qed.

(** What [loadAttemptedCombinations] computes from the text after the
    first marker; the header before it plays no part. *)
Lemma loadAttemptedCombinations_section
    (this : Recovery) (h body : string)
    (ck : option checkpointText) (t : nat) (tr : list event) :
  no_char "#" h ->
  io_fails E t = false ->
  loadAttemptedCombinations E this
    (mkWorld (Some (h ++ ATTEMPTED_START ++ body)) ck t tr)
  = let w1 := mkWorld (Some (h ++ ATTEMPTED_START ++ body)) ck (S t) tr in
    let section := fst (Str.split_from ATTEMPTED_START 0 body) in
    if String.eqb section ""
    then (Ok this, w1)
    else
      match map_result (fun line => BigIntText.ofString (Str.trim line))
              (filter (fun line => negb (String.eqb (Str.trim line) ""))
                 (Str.split nl section)) with
      | Ok attemptedLines =>
          (Ok (set_attemptedCombinations this (Set_of_array attemptedLines)), w1)
      | Throw e =>
          (Ok this, emit (ConsoleError "Error loading attempted combinations:" e) w1)
      end.
Proof.
  intros Hh Hio.
  unfold loadAttemptedCombinations, try_catch, bind, fs_readFile_log, lift,
    console_error, ret, tick, emit.
  cbn [ticks logFile checkpointFile trace]. rewrite Hio.
  rewrite split_ATTEMPTED_START by exact Hh.
  unfold Str.split. destruct (Str.split_from ATTEMPTED_START 0 body) as [p ps].
  cbn [nth_error fst].
  destruct (String.eqb p ""); [reflexivity|].
  destruct (map_result _ _); reflexivity.
Qed.

Lemma trimStart_head (s : string) :
  Str.trimStart s = ""
  \/ exists c r, Str.trimStart s = String c r /\ Str.is_whitespace c = false.
Proof.
  induction s as [|c s IH]; cbn [Str.trimStart]; [now left|].
  destruct (Str.is_whitespace c) eqn:Hc; [exact IH|].
  right. now exists c, s.
Qed.

Lemma trimEnd_idempotent (s : string) : Str.trimEnd (Str.trimEnd s) = Str.trimEnd s.
Proof.
  induction s as [|c s IH]; cbn [Str.trimEnd]; [reflexivity|].
  destruct (Str.is_whitespace c && String.eqb (Str.trimEnd s) "") eqn:Hc;
    [reflexivity|].
  cbn [Str.trimEnd]. now rewrite IH, Hc.
Qed.

Lemma trim_idempotent (s : string) : Str.trim (Str.trim s) = Str.trim s.
Proof.
  unfold Str.trim.
  destruct (trimStart_head s) as [H|(c & r & H & Hc)]; rewrite H.
  - reflexivity.
  - cbn [Str.trimEnd]. rewrite Hc. cbn [andb Str.trimStart]. rewrite Hc.
    cbn [Str.trimEnd]. rewrite Hc. cbn [andb].
    now rewrite trimEnd_idempotent.
Qed.

Lemma map_result_fails {A B : Type} (f : A -> result B) (e : error) (l : list A) :
  (forall x y, f x = Throw y -> y = e) ->
  (exists x, In x l /\ f x = Throw e) ->
  map_result f l = Throw e.
Proof.
  intros Hone (x & Hin & Hx).
  induction l as [|a l IH]; [destruct Hin|]. cbn [map_result].
  destruct (f a) as [b|y] eqn:Ha.
  - destruct Hin as [->|Hin]; [congruence|]. now rewrite (IH Hin).
  - now rewrite (Hone a y Ha).
Qed.

End LedgerLoading.

(** X15: the ledger reads back what was logged.  When the file holds a
    header without ['#'], the marker and the lines that
    [logAttemptedCombination] appends for the indices of [l],
    [loadAttemptedCombinations] replaces the attempted set by the set of
    exactly those indices (and leaves it alone when no index was logged);
    and one more successful append turns such a file into the file for
    [l ++ [idx]]. *)
Theorem loadAttemptedCombinations_reads_back
    (E : Env) (this : Recovery) (h : string) (l : list Z)
    (ck : option checkpointText) (t : nat) (tr : list event) :
  no_char "#" h ->
  io_fails E t = false ->
  let w := mkWorld (Some (h ++ ATTEMPTED_START ++ ledger_lines l)%string) ck t tr in
  (exists this',
      loadAttemptedCombinations E this w = (Ok this', tick w)
      /\ attemptedCombinations this'
         = match l with
           | [] => attemptedCombinations this
           | _ :: _ => Set_of_array l
           end
      /\ same_setup this' this
      /\ totalAttempts this' = totalAttempts this)
  /\ (forall i, Set_has (Set_of_array l) i = true <-> In i l)
  /\ NoDup (Set_of_array l)
  /\ (forall idx,
         logFile (snd (logAttemptedCombination E this idx w))
         = Some (h ++ ATTEMPTED_START ++ ledger_lines (l ++ [idx]))%string).
Proof.
  intros Hh Hio. cbv zeta.
  split; [|split; [|split]].
  - rewrite loadAttemptedCombinations_section by assumption. cbv zeta.
    rewrite split_from_ATTEMPTED_START_absent by apply ledger_lines_no_hash.
    cbn [fst].
    destruct l as [|i l'].
    + cbn [ledger_lines]. cbn [String.eqb]. exists this. repeat split.
    + set (l := i :: l') in *.
      destruct (String.eqb_spec (ledger_lines l) "") as [Hnil|_].
      { exfalso. revert Hnil. apply ledger_lines_nonempty. discriminate. }
      rewrite <- (append_nil_r (ledger_lines l)), split_ledger_lines.
      change (Str.split nl "") with [""].
      rewrite filter_lines_toString, map_result_toString.
      eexists. split; [reflexivity|]. repeat split.
  - intros i. rewrite Set_has_In. apply Set_of_array_In.
  - apply Set_of_array_NoDup.
  - intros idx.
    unfold logAttemptedCombination, try_catch, bind, fs_appendFile_log,
      console_error, ret, tick, emit.
    cbn [ticks logFile checkpointFile trace]. rewrite Hio. cbn [snd logFile].
    now rewrite ledger_lines_snoc, !append_assoc.
Qed.

Lemma loadAttemptedCombinations_reads_back_witness :
  let w := mkWorld (Some ("head" ++ ATTEMPTED_START ++ ledger_lines [4; 0; 4; 12])%string)
             None 0 [] in
  (exists this',
      loadAttemptedCombinations (quiet_env ["a"]) (recovery_for [] [1] ["a"]) w
      = (Ok this', tick w)
      /\ attemptedCombinations this' = Set_of_array [4; 0; 4; 12]
      /\ same_setup this' (recovery_for [] [1] ["a"])
      /\ totalAttempts this' = totalAttempts (recovery_for [] [1] ["a"]))
  /\ (forall i, Set_has (Set_of_array [4; 0; 4; 12]) i = true <-> In i [4; 0; 4; 12])
  /\ NoDup (Set_of_array [4; 0; 4; 12])
  /\ (forall idx,
         logFile (snd (logAttemptedCombination (quiet_env ["a"])
                         (recovery_for [] [1] ["a"]) idx w))
         = Some ("head" ++ ATTEMPTED_START ++ ledger_lines ([4; 0; 4; 12] ++ [idx]))%string).
Proof.
  apply (loadAttemptedCombinations_reads_back (quiet_env ["a"])
           (recovery_for [] [1] ["a"]) "head" [4; 0; 4; 12] None 0 []).
  - unfold no_char. cbn. repeat constructor; discriminate.
  - reflexivity.
Defined.

(** X16: one line that is not a BigInt spoils the whole load: if the
    text after the marker has a non-blank line that [BigInt] rejects,
    [loadAttemptedCombinations] reports the SyntaxError and leaves the
    attempted set as it was, whatever the other lines say. *)
Theorem loadAttemptedCombinations_spoiled
    (E : Env) (this : Recovery) (h body line : string)
    (ck : option checkpointText) (t : nat) (tr : list event) :
  no_char "#" h ->
  no_char "#" body ->
  io_fails E t = false ->
  In line (Str.split nl body) ->
  Str.trim line <> ""%string ->
  BigIntText.parse line = None ->
  loadAttemptedCombinations E this
    (mkWorld (Some (h ++ ATTEMPTED_START ++ body)%string) ck t tr)
  = (Ok this,
     mkWorld (Some (h ++ ATTEMPTED_START ++ body)%string) ck (S t)
       (ConsoleError "Error loading attempted combinations:"
          (SyntaxError "Cannot convert to a BigInt") :: tr)).
Proof.
  intros Hh Hb Hio Hin Hnb Hparse.
  rewrite loadAttemptedCombinations_section by assumption. cbv zeta.
  rewrite split_from_ATTEMPTED_START_absent by exact Hb. cbn [fst].
  destruct (String.eqb_spec body "") as [->|_].
  { exfalso. cbn in Hin. destruct Hin as [<-|[]]. now apply Hnb. }
  rewrite (map_result_fails _ (SyntaxError "Cannot convert to a BigInt")).
  - reflexivity.
  - intros x y. unfold BigIntText.ofString.
    destruct (BigIntText.parse (Str.trim x)); [discriminate|]. now intros [= <-].
  - exists line. split.
    + apply filter_In. split; [exact Hin|].
      destruct (String.eqb_spec (Str.trim line) ""); [contradiction|reflexivity].
    + unfold BigIntText.ofString.
      assert (Hp : BigIntText.parse (Str.trim line) = None).
      { unfold BigIntText.parse in *.
        assert (Htt : Str.trim (Str.trim line) = Str.trim line)
          by apply trim_idempotent.
        now rewrite Htt. }
      now rewrite Hp.
Qed.

Lemma loadAttemptedCombinations_spoiled_witness :
  loadAttemptedCombinations (quiet_env ["a"]) (recovery_for [] [1] ["a"])
    (mkWorld
       (Some ("head" ++ ATTEMPTED_START
              ++ (ledger_lines [0] ++ match_line "T" "a b" ++ ledger_lines [1]))%string)
       None 0 [])
  = (Ok (recovery_for [] [1] ["a"]),
     mkWorld
       (Some ("head" ++ ATTEMPTED_START
              ++ (ledger_lines [0] ++ match_line "T" "a b" ++ ledger_lines [1]))%string)
       None 1
       [ConsoleError "Error loading attempted combinations:"
          (SyntaxError "Cannot convert to a BigInt")]).
Proof.
  apply (loadAttemptedCombinations_spoiled (quiet_env ["a"]) (recovery_for [] [1] ["a"])
           "head"
           (ledger_lines [0] ++ match_line "T" "a b" ++ ledger_lines [1])%string
           "T | Valid: true | Mnemonic: a b" None 0 []).
  - unfold no_char. cbn. repeat constructor; discriminate.
  - unfold no_char. vm_compute. repeat constructor; discriminate.
  - reflexivity.
  - vm_compute. right. left. reflexivity.
  - vm_compute. discriminate.
  - vm_compute. reflexivity.
Defined.

(** X10: with no word list at all, [initialize] throws the word-list
    error before anything else, [main] only reports it, and
    [findValidSeedPhrases] refuses to run on an object without word list;
    in all three cases no file is touched and nothing is validated. *)
Theorem empty_word_list_stops_everything
    (E : Env) (known : list string) (missing : list Z) (w : World) :
  wordListPromise E = [] ->
  (forall this,
      initialize E this w
      = (Throw (Error "Failed to load word list. Ensure english.txt is present."), w))
  /\ main E known missing w
     = (Ok tt,
        mkWorld (logFile w) (checkpointFile w) (S (ticks w))
          (ConsoleError "Error in recovery process:"
             (Error "Failed to load word list. Ensure english.txt is present.")
           :: trace w))
  /\ (forall this,
         wordList this = [] ->
         findValidSeedPhrases E this w
         = (Throw (Error "Word list not initialized. Call initialize() first."), w)).
Proof.
  intros Hwl. split; [|split].
  - intros this. unfold initialize. cbn [wordList set_wordList]. now rewrite Hwl.
  - now rewrite (main_empty_word_list E known missing w Hwl).
  - intros this Hthis. unfold findValidSeedPhrases. now rewrite Hthis.
Qed.

Lemma empty_word_list_stops_everything_witness :
  (forall this,
      initialize (quiet_env []) this fresh_world
      = (Throw (Error "Failed to load word list. Ensure english.txt is present."),
         fresh_world))
  /\ main (quiet_env []) ["a"] [2] fresh_world
     = (Ok tt,
        mkWorld None None 1
          [ConsoleError "Error in recovery process:"
             (Error "Failed to load word list. Ensure english.txt is present.")])
  /\ (forall this,
         wordList this = [] ->
         findValidSeedPhrases (quiet_env []) this fresh_world
         = (Throw (Error "Word list not initialized. Call initialize() first."),
            fresh_world)).
Proof.
  apply (empty_word_list_stops_everything (quiet_env []) ["a"] [2] fresh_world).
  reflexivity.
Defined.

(* ================================================================== *)
(** * The ledger header on resume *)

(** C7 (amended): on resume nothing compares the ledger header with the
    parameters of the current run and no configuration-mismatch error is
    raised: [findValidSeedPhrases] on an initialized object never throws,
    whatever the ledger file holds, and runs its loop to the bound; and
    [loadAttemptedCombinations] reads only the text after the marker, so
    two ledger files that differ in their header alone load alike. *)
Theorem ledger_header_not_checked (E : Env) (this : Recovery) :
  wordList this <> [] ->
  (forall w : World,
      exists this' w',
        findValidSeedPhrases E this w = (Ok this', w')
        /\ totalAttempts this'
           = if totalAttempts this <? loop_bound this
             then loop_bound this else totalAttempts this)
  /\ (forall (h1 h2 body : string) (ck : option checkpointText)
             (t : nat) (tr : list event),
         no_char "#" h1 -> no_char "#" h2 ->
         fst (loadAttemptedCombinations E this
                (mkWorld (Some (h1 ++ ATTEMPTED_START ++ body)%string) ck t tr))
         = fst (loadAttemptedCombinations E this
                  (mkWorld (Some (h2 ++ ATTEMPTED_START ++ body)%string) ck t tr))
         /\ trace (snd (loadAttemptedCombinations E this
                          (mkWorld (Some (h1 ++ ATTEMPTED_START ++ body)%string) ck t tr)))
            = trace (snd (loadAttemptedCombinations E this
                            (mkWorld (Some (h2 ++ ATTEMPTED_START ++ body)%string) ck t tr)))).
Proof.
  intros Hwl. split.
  - intros w.
    destruct (findValidSeedPhrases_run E this w Hwl)
      as (this' & w' & new & H & _ & _ & _ & _ & Ht).
    now exists this', w'.
  - intros h1 h2 body ck t tr Hh1 Hh2.
    destruct (io_fails E t) eqn:Hio.
    + unfold loadAttemptedCombinations, try_catch, bind, fs_readFile_log, lift,
        console_error, ret, tick, emit.
      cbn [ticks logFile checkpointFile trace]. rewrite Hio. now split.
    + rewrite !loadAttemptedCombinations_section by assumption. cbv zeta.
      destruct (String.eqb (fst (Str.split_from ATTEMPTED_START 0 body)) "");
        [now split|].
      destruct (map_result _ _); now split.
Qed.

Lemma ledger_header_not_checked_witness :
  (forall w : World,
      exists this' w',
        findValidSeedPhrases (quiet_env ["a"; "b"])
          (set_combinationCount (recovery_for [] [1] ["a"; "b"]) (Some 2)) w
        = (Ok this', w')
        /\ totalAttempts this'
           = if totalAttempts
                  (set_combinationCount (recovery_for [] [1] ["a"; "b"]) (Some 2))
                <? loop_bound
                     (set_combinationCount (recovery_for [] [1] ["a"; "b"]) (Some 2))
             then loop_bound
                    (set_combinationCount (recovery_for [] [1] ["a"; "b"]) (Some 2))
             else totalAttempts
                    (set_combinationCount (recovery_for [] [1] ["a"; "b"]) (Some 2)))
  /\ (forall (h1 h2 body : string) (ck : option checkpointText)
             (t : nat) (tr : list event),
         no_char "#" h1 -> no_char "#" h2 ->
         fst (loadAttemptedCombinations (quiet_env ["a"; "b"])
                (set_combinationCount (recovery_for [] [1] ["a"; "b"]) (Some 2))
                (mkWorld (Some (h1 ++ ATTEMPTED_START ++ body)%string) ck t tr))
         = fst (loadAttemptedCombinations (quiet_env ["a"; "b"])
                  (set_combinationCount (recovery_for [] [1] ["a"; "b"]) (Some 2))
                  (mkWorld (Some (h2 ++ ATTEMPTED_START ++ body)%string) ck t tr))
         /\ trace (snd (loadAttemptedCombinations (quiet_env ["a"; "b"])
                          (set_combinationCount (recovery_for [] [1] ["a"; "b"]) (Some 2))
                          (mkWorld (Some (h1 ++ ATTEMPTED_START ++ body)%string) ck t tr)))
            = trace (snd (loadAttemptedCombinations (quiet_env ["a"; "b"])
                            (set_combinationCount (recovery_for [] [1] ["a"; "b"]) (Some 2))
                            (mkWorld (Some (h2 ++ ATTEMPTED_START ++ body)%string) ck t tr)))).
Proof.
  apply (ledger_header_not_checked (quiet_env ["a"; "b"])
           (set_combinationCount (recovery_for [] [1] ["a"; "b"]) (Some 2))).
  cbn. discriminate.
Defined.
